(** * Linkly URL shortener: the Base62 codec and the cache-first services

    A shallow embedding of the modules
    - [lib/id-generator.js]: [BASE62_ALPHABET], [idToBase62], [base62ToId],
      [getCapacity];
    - [db/client.js]: the in-memory store behind [db.query];
    - [cache/client.js]: the in-memory cache client;
    - [config.js]: the constants the services read;
    - [services/url-service.js]: [createShortUrl], [getUrlStats],
      [cleanupExpiredUrls];
    - [services/redirect-service.js]: [getOriginalUrl] and its helpers,
      [preloadCache];
    - [routes.js]: the handlers of [POST /api/shorten], [GET /:shortCode],
      [GET /api/stats/:shortCode] and [POST /api/admin/cleanup];
    followed by the properties of the specification that concern them and
    by further properties of the same code.

    Conventions of the embedding:
    - a JavaScript number is a rational, [NaN] or an infinity; the doubles
      are among the rationals, and every arithmetic result is rounded to the
      nearest double, ties to even, as IEEE 754 prescribes; the sign of
      zero is not kept;
    - a JavaScript string is a [string] of 8-bit code units;
    - an [async] function is a state transformer that returns or throws;
      [await] is sequencing; a promise that is not awaited ([p.catch(log)])
      runs at once and its failure is discarded;
    - the clock keeps one reading while a request is served;
    - [console.*] calls are not modelled. *)

From Equations Require Import Equations.
From Stdlib Require Import ZArith QArith Qround Qpower Qabs Qreduction
  String Ascii DecimalString List Bool Lia Lqa.
Import ListNotations.
Open Scope string_scope.
Open Scope Z_scope.

Set Implicit Arguments.

(** ** JavaScript values *)

Inductive number :=
| Finite (q : Q)
| NaN
| Infinity (negative : bool).

(** [VDate None] is an Invalid Date.  [VObject prim] stands for any other
    object or array; [prim] is the string its ToPrimitive conversion yields. *)
Inductive value :=
| VUndefined
| VNull
| VBool (b : bool)
| VNum (n : number)
| VStr (s : string)
| VDate (t : option Z)
| VObject (prim : string).

Definition VInt (z : Z) : value := VNum (Finite (inject_Z z)).

Inductive error :=
| Error (message : string)
| TypeError (message : string).

Definition message (e : error) : string :=
  match e with Error m => m | TypeError m => m end.

Inductive outcome (A : Type) :=
| Return (a : A)
| Throw (e : error).
Arguments Return {A} a.
Arguments Throw {A} e.

Definition typeof (v : value) : string :=
  match v with
  | VUndefined => "undefined"
  | VNull => "object"
  | VBool _ => "boolean"
  | VNum _ => "number"
  | VStr _ => "string"
  | VDate _ => "object"
  | VObject _ => "object"
  end.

(** ToBoolean. *)
Definition truthy (v : value) : bool :=
  match v with
  | VUndefined | VNull => false
  | VBool b => b
  | VNum (Finite q) => negb (Qnum q =? 0)
  | VNum NaN => false
  | VNum (Infinity _) => true
  | VStr s => negb (String.eqb s "")
  | VDate _ | VObject _ => true
  end.

(** [Number.isInteger(v)]. *)
Definition Number_isInteger (v : value) : bool :=
  match v with
  | VNum (Finite q) => Qnum q mod Zpos (Qden q) =? 0
  | _ => false
  end.

(** [v < 0] for a number [v]; the codec evaluates it on numbers only. *)
Definition Number_isNegative (v : value) : bool :=
  match v with
  | VNum (Finite q) => Qnum q <? 0
  | VNum (Infinity negative) => negative
  | _ => false
  end.

(** The mathematical integer denoted by an integral number. *)
Definition Number_toZ (v : value) : Z :=
  match v with
  | VNum (Finite q) => Qfloor q
  | _ => 0
  end.

(** ** Double-precision arithmetic

    The result of an operation is the exact result rounded to the nearest
    number with a 53-bit significand, ties to the even significand; below
    [2^-1022] the spacing stays at [2^-1074]; from [2^1024] on the result is
    an infinity. *)

Definition NInt (z : Z) : number := Finite (inject_Z z).

Definition Qpow2 (e : Z) : Q := 2 ^ e.

(** The nearest integer, ties to even. *)
Definition round_half_even (x : Q) : Z :=
  let f := Qfloor x in
  match (x - inject_Z f ?= 1 # 2)%Q with
  | Lt => f
  | Gt => f + 1
  | Eq => if Z.even f then f else f + 1
  end.

(** The exponent [e] of the last place of a positive [a]:
    [2^52 <= a / 2^e < 2^53], and [-1074] for the subnormal numbers. *)
Definition ulp_exponent (a : Q) : Z :=
  let l := Z.log2 (Qnum a) - Z.log2 (Zpos (Qden a)) in
  let e := if Qle_bool (Qpow2 53) (a / Qpow2 (l - 53)) then l - 52
           else l - 53 in
  Z.max e (-1074).

Definition round_to_double (q : Q) : number :=
  if Qeq_bool q 0 then Finite 0
  else
    let a := Qabs q in
    let e := ulp_exponent a in
    let r := (inject_Z (round_half_even (a / Qpow2 e)) * Qpow2 e)%Q in
    if Qle_bool (Qpow2 1024) r then Infinity (Qnum q <? 0)
    else Finite (Qred (if Qnum q <? 0 then - r else r)).

(** [x * y] *)
Definition Number_mul (x y : number) : number :=
  match x, y with
  | NaN, _ | _, NaN => NaN
  | Finite p, Finite q => round_to_double (p * q)
  | Infinity s, Finite q | Finite q, Infinity s =>
      if Qeq_bool q 0 then NaN else Infinity (xorb s (Qnum q <? 0))
  | Infinity s, Infinity t => Infinity (xorb s t)
  end.

(** [x + y] *)
Definition Number_add (x y : number) : number :=
  match x, y with
  | NaN, _ | _, NaN => NaN
  | Finite p, Finite q => round_to_double (p + q)
  | Infinity s, Finite _ | Finite _, Infinity s => Infinity s
  | Infinity s, Infinity t => if Bool.eqb s t then Infinity s else NaN
  end.

(** [x / y] *)
Definition Number_div (x y : number) : number :=
  match x, y with
  | NaN, _ | _, NaN => NaN
  | Finite p, Finite q =>
      if Qeq_bool q 0 then
        if Qeq_bool p 0 then NaN else Infinity (Qnum p <? 0)
      else round_to_double (p / q)
  | Finite _, Infinity _ => Finite 0
  | Infinity s, Finite q => Infinity (xorb s (Qnum q <? 0))
  | Infinity _, Infinity _ => NaN
  end.

(** [x < y] *)
Definition Number_lt (x y : number) : bool :=
  match x, y with
  | NaN, _ | _, NaN => false
  | Finite p, Finite q =>
      match (p ?= q)%Q with Lt => true | _ => false end
  | Finite _, Infinity negative => negb negative
  | Infinity negative, Finite _ => negative
  | Infinity s, Infinity t => s && negb t
  end.

(** [Math.floor(x)] *)
Definition Math_floor (x : number) : number :=
  match x with
  | Finite q => Finite (inject_Z (Qfloor q))
  | _ => x
  end.

(** *** What the rounding keeps *)

Lemma Qpow2_pos e : (0 < Qpow2 e)%Q.
Proof. apply Qpower_0_lt. reflexivity. Qed.

Lemma Qpow2_add a b : (Qpow2 (a + b) == Qpow2 a * Qpow2 b)%Q.
Proof. apply Qpower_plus. discriminate. Qed.

Lemma Qpow2_Z k : 0 <= k -> (Qpow2 k == inject_Z (2 ^ k))%Q.
Proof. intros Hk. unfold Qpow2. now rewrite Zpower_Qpower. Qed.

Lemma Qpow2_le e1 e2 : e1 <= e2 -> (Qpow2 e1 <= Qpow2 e2)%Q.
Proof. intros H. apply Qpower_le_compat_l; [exact H | discriminate]. Qed.

Lemma Qpow2_lt_inv e1 e2 : (Qpow2 e1 < Qpow2 e2)%Q -> e1 < e2.
Proof. intros H. apply (Qpower_lt_compat_l_inv 2); [exact H | reflexivity]. Qed.

Lemma Qdiv_62 x : (x / 62 == x * (1 # 62))%Q.
Proof. reflexivity. Qed.

Lemma Qdiv_2 x : (x / 2 == x * (1 # 2))%Q.
Proof. reflexivity. Qed.

Lemma Qfloor_unique x k :
  (inject_Z k <= x)%Q -> (x < inject_Z (k + 1))%Q -> Qfloor x = k.
Proof.
  intros Hlo Hhi.
  pose proof (Qfloor_resp_le _ _ Hlo) as H1. rewrite Qfloor_Z in H1.
  pose proof (Qfloor_le x) as H2.
  assert (H3 : (inject_Z (Qfloor x) < inject_Z (k + 1))%Q) by lra.
  rewrite <- Zlt_Qlt in H3. lia.
Qed.

Lemma Qred_inject_Z z : Qred (inject_Z z) = inject_Z z.
Proof.
  unfold Qred, inject_Z.
  pose proof (Z.ggcd_correct_divisors z 1) as Hd.
  pose proof (Z.ggcd_gcd z 1) as Hg. rewrite Z.gcd_1_r in Hg.
  destruct (Z.ggcd z 1) as [g [aa bb]]. cbn [fst snd] in *. subst g.
  destruct Hd as [-> Hb]. replace bb with 1 by lia.
  rewrite Z.mul_1_l. reflexivity.
Qed.

Lemma round_half_even_error x :
  (x - (1 # 2) <= inject_Z (round_half_even x) <= x + (1 # 2))%Q.
Proof.
  unfold round_half_even.
  pose proof (Qfloor_le x) as Hlo. pose proof (Qlt_floor x) as Hhi.
  assert (H1 : (inject_Z (Qfloor x + 1) == inject_Z (Qfloor x) + 1)%Q)
    by (rewrite inject_Z_plus; reflexivity).
  rewrite H1 in Hhi.
  destruct (Qcompare_spec (x - inject_Z (Qfloor x)) (1 # 2)) as [He|Hl|Hg].
  - destruct (Z.even (Qfloor x)); [|rewrite H1]; lra.
  - lra.
  - rewrite H1. lra.
Qed.

Lemma round_half_even_Z x z : (x == inject_Z z)%Q -> round_half_even x = z.
Proof.
  intros Hx. unfold round_half_even.
  rewrite (Qfloor_comp _ _ Hx), Qfloor_Z.
  destruct (Qcompare_spec (x - inject_Z z) (1 # 2)) as [He|Hl|Hg];
    [lra | reflexivity | lra].
Qed.

(** The last place of a normal number is at most [2^-52] times it. *)
Lemma ulp_exponent_lower a :
  (0 < a)%Q ->
  ulp_exponent a = -1074 \/ (Qpow2 52 * Qpow2 (ulp_exponent a) <= a)%Q.
Proof.
  intros Ha. unfold ulp_exponent.
  set (l := Z.log2 (Qnum a) - Z.log2 (Zpos (Qden a))).
  assert (Hl : (Qpow2 (l - 1) <= a)%Q).
  { destruct a as [n d]. unfold l. cbn [Qnum Qden].
    assert (Hn : 0 < n) by (unfold Qlt in Ha; simpl in Ha; lia).
    pose proof (Z.log2_spec n Hn) as [Hn1 _].
    pose proof (Z.log2_spec (Zpos d) ltac:(lia)) as [_ Hd2].
    pose proof (Z.log2_nonneg n). pose proof (Z.log2_nonneg (Zpos d)).
    replace (Z.log2 n - Z.log2 (Zpos d) - 1)
      with (Z.log2 n + - (Z.succ (Z.log2 (Zpos d)))) by lia.
    rewrite Qpow2_add. unfold Qpow2 at 2. rewrite Qpower_opp.
    fold (Qpow2 (Z.succ (Z.log2 (Z.pos d)))).
    rewrite !Qpow2_Z by lia.
    set (p := 2 ^ Z.log2 n) in *. set (q := 2 ^ Z.succ (Z.log2 (Z.pos d))) in *.
    assert (Hq : 0 < q) by lia.
    destruct q as [|q|q]; try lia.
    unfold Qle, Qmult, Qinv, inject_Z. cbn [Qnum Qden].
    nia. }
  destruct (Qle_bool (Qpow2 53) (a / Qpow2 (l - 53))) eqn:Hc.
  - apply Qle_bool_iff in Hc.
    destruct (Z.max_spec (l - 52) (-1074)) as [[_ ->]|[_ ->]];
      [left; reflexivity|].
    right.
    pose proof (Qpow2_pos (l - 53)) as Hp.
    assert (Hm : (Qpow2 53 * Qpow2 (l - 53) <= a)%Q).
    { pose proof (Qmult_le_compat_r _ _ (Qpow2 (l - 53)) Hc
                    (Qlt_le_weak _ _ Hp)) as H.
      assert (Hdiv : (a / Qpow2 (l - 53) * Qpow2 (l - 53) == a)%Q).
      { field. intros H0. rewrite H0 in Hp. exact (Qlt_irrefl _ Hp). }
      rewrite Hdiv in H. exact H. }
    replace (l - 52) with (1 + (l - 53)) by lia.
    rewrite (Qpow2_add 1 (l - 53)).
    assert (H53 : (Qpow2 53 == Qpow2 52 * Qpow2 1)%Q)
      by (rewrite <- Qpow2_add; reflexivity).
    rewrite H53 in Hm. lra.
  - destruct (Z.max_spec (l - 53) (-1074)) as [[_ ->]|[_ ->]];
      [left; reflexivity|].
    right. rewrite <- Qpow2_add. replace (52 + (l - 53)) with (l - 1) by lia.
    exact Hl.
Qed.

(** The rounding of a positive rational. *)
Lemma round_to_double_pos q :
  (0 < q)%Q ->
  round_to_double q
  = (let e := ulp_exponent q in
     let r := (inject_Z (round_half_even (q / Qpow2 e)) * Qpow2 e)%Q in
     if Qle_bool (Qpow2 1024) r then Infinity false else Finite (Qred r)).
Proof.
  intros Hq. unfold round_to_double.
  destruct (Qeq_bool q 0) eqn:Hz; [apply Qeq_bool_iff in Hz; lra|].
  destruct q as [n d].
  assert (Hn : 0 < n) by (unfold Qlt in Hq; simpl in Hq; lia).
  unfold Qabs. rewrite Z.abs_eq by lia. cbn [Qnum].
  destruct (n <? 0) eqn:Hneg; [apply Z.ltb_lt in Hneg; lia|]. reflexivity.
Qed.

(** It is off by at most half a unit in the last place. *)
Lemma round_error q :
  (0 < q)%Q ->
  let e := ulp_exponent q in
  let r := (inject_Z (round_half_even (q / Qpow2 e)) * Qpow2 e)%Q in
  (q - Qpow2 e / 2 <= r <= q + Qpow2 e / 2)%Q.
Proof.
  intros Hq e r. subst r.
  pose proof (Qpow2_pos e) as Hp.
  pose proof (round_half_even_error (q / Qpow2 e)) as [Hlo Hhi].
  assert (Hdiv : (q / Qpow2 e * Qpow2 e == q)%Q).
  { field. intros H0. rewrite H0 in Hp. exact (Qlt_irrefl _ Hp). }
  pose proof (Qmult_le_compat_r _ _ (Qpow2 e) Hlo (Qlt_le_weak _ _ Hp)) as H1.
  pose proof (Qmult_le_compat_r _ _ (Qpow2 e) Hhi (Qlt_le_weak _ _ Hp)) as H2.
  assert (E1 : ((q / Qpow2 e - (1 # 2)) * Qpow2 e == q - Qpow2 e / 2)%Q).
  { rewrite <- Hdiv at 2. field.
    intros H0. rewrite H0 in Hp. exact (Qlt_irrefl _ Hp). }
  assert (E2 : ((q / Qpow2 e + (1 # 2)) * Qpow2 e == q + Qpow2 e / 2)%Q).
  { rewrite <- Hdiv at 2. field.
    intros H0. rewrite H0 in Hp. exact (Qlt_irrefl _ Hp). }
  rewrite E1 in H1. rewrite E2 in H2. split; assumption.
Qed.

(** The integers below [2^53] are doubles: rounding keeps them. *)
Lemma round_to_double_Z q z :
  0 <= z < 2 ^ 53 -> (q == inject_Z z)%Q ->
  round_to_double q = NInt z.
Proof.
  intros Hz Hq. unfold NInt. destruct (Z.eq_dec z 0) as [->|Hnz].
  - unfold round_to_double.
    assert (H0 : Qeq_bool q 0 = true) by (apply Qeq_bool_iff; exact Hq).
    now rewrite H0.
  - assert (Hpos : (0 < q)%Q).
    { rewrite Hq. change 0%Q with (inject_Z 0). rewrite <- Zlt_Qlt. lia. }
    rewrite (round_to_double_pos Hpos). cbv zeta.
    set (e := ulp_exponent q).
    assert (Hz53 : (inject_Z z < Qpow2 53)%Q).
    { rewrite Qpow2_Z by lia. rewrite <- Zlt_Qlt. lia. }
    assert (He : e <= 0).
    { destruct (ulp_exponent_lower Hpos) as [He|He]; fold e in He; [lia|].
      assert (H2 : (Qpow2 e < Qpow2 1)%Q).
      { assert (H53 : (Qpow2 53 == Qpow2 52 * Qpow2 1)%Q)
          by (rewrite <- Qpow2_add; reflexivity).
        pose proof (Qpow2_pos 52). pose proof (Qpow2_pos e).
        pose proof (Qpow2_pos 1).
        rewrite Hq in He. rewrite H53 in Hz53.
        set (A := Qpow2 52) in *. set (B := Qpow2 e) in *.
        set (B1 := Qpow2 1) in *. nra. }
      apply Qpow2_lt_inv in H2. lia. }
    assert (Hx : (q / Qpow2 e == inject_Z (z * 2 ^ (- e)))%Q).
    { rewrite inject_Z_mult, <- Qpow2_Z by lia.
      unfold Qpow2 at 2. rewrite Qpower_opp. fold (Qpow2 e). rewrite Hq.
      reflexivity. }
    rewrite (round_half_even_Z Hx).
    assert (Hr : (inject_Z (z * 2 ^ (- e)) * Qpow2 e == inject_Z z)%Q).
    { rewrite inject_Z_mult, <- Qpow2_Z by lia.
      unfold Qpow2 at 1. rewrite Qpower_opp. fold (Qpow2 e).
      pose proof (Qpow2_pos e) as Hp. field.
      intros H0. rewrite H0 in Hp. exact (Qlt_irrefl _ Hp). }
    destruct (Qle_bool (Qpow2 1024) _) eqn:Hov.
    + apply Qle_bool_iff in Hov. rewrite Hr in Hov.
      pose proof (@Qpow2_le 53 1024 ltac:(lia)). lra.
    + f_equal. rewrite (Qred_complete _ _ Hr). apply Qred_inject_Z.
Qed.

(** ** Strings *)

(** [s.includes(sub)]. *)
Fixpoint includes (s sub : string) : bool :=
  String.prefix sub s ||
  match s with
  | EmptyString => false
  | String _ s' => includes s' sub
  end.

Fixpoint indexOf_from (s sub : string) (i : Z) : Z :=
  if String.prefix sub s then i
  else match s with
       | EmptyString => -1
       | String _ s' => indexOf_from s' sub (i + 1)
       end.

(** [s.indexOf(sub)]. *)
Definition indexOf (s sub : string) : Z := indexOf_from s sub 0.

(** [s[i]] followed by its use in a concatenation: a one-character string,
    or ["undefined"] out of range. *)
Definition charAt (s : string) (i : Z) : string :=
  if i <? 0 then "undefined"
  else match String.get (Z.to_nat i) s with
       | Some c => String c EmptyString
       | None => "undefined"
       end.

(** ** src/lib/id-generator.js *)

Module Base62.

Definition BASE62_ALPHABET : string :=
"0123456789abcdefghijklmnopqrstuvwxyzABCDEFGHIJKLMNOPQRSTUVWXYZ".
Definition BASE : Z := 62.

(** [Math.floor(num / BASE)] for an integral [num]: the quotient is rounded
    to a double before it is floored. *)
Definition floor_quotient (num : Z) : Z :=
  Number_toZ (VNum (Math_floor (Number_div (NInt num) (NInt BASE)))).

(** Termination measure of the encoding loop: the bit length of [num]. *)
Definition bits (n : Z) : nat := Z.to_nat (Z.log2_up (n + 1)).

Lemma bits_half n m : 0 < n -> 0 <= m <= n / 2 -> (bits m < bits n)%nat.
Proof.
intros Hn Hm. unfold bits.
apply Z2Nat.inj_lt; try apply Z.log2_up_nonneg.
assert (Hk : 0 < Z.log2_up (n + 1)) by (apply Z.log2_up_pos; lia).
pose proof (Z.log2_up_spec (n + 1) ltac:(lia)) as [_ Hup].
apply Z.lt_le_trans with (m := Z.log2_up (n + 1) - 1 + 1); [|lia].
apply Z.lt_succ_r. apply Z.log2_up_le_pow2; try lia.
replace (Z.log2_up (n + 1)) with (Z.succ (Z.log2_up (n + 1) - 1)) in Hup by lia.
rewrite Z.pow_succ_r in Hup by lia.
pose proof (Z.div_le_mono n (2 * 2 ^ (Z.log2_up (n + 1) - 1) - 1) 2
              ltac:(lia) ltac:(lia)).
assert ((2 * 2 ^ (Z.log2_up (n + 1) - 1) - 1) / 2
        = 2 ^ (Z.log2_up (n + 1) - 1) - 1).
{ symmetry. apply Z.div_unique with (r := 1); lia. }
lia.
Qed.

Lemma floor_quotient_eq num :
  floor_quotient num
  = match round_to_double (inject_Z num / inject_Z 62) with
    | Finite q => Qfloor q
    | _ => 0
    end.
Proof.
unfold floor_quotient, NInt, BASE, Number_div.
change (Qeq_bool (inject_Z 62) 0) with false. cbv iota.
destruct (round_to_double (inject_Z num / inject_Z 62));
  cbn [Math_floor Number_toZ]; [apply Qfloor_Z | reflexivity | reflexivity].
Qed.

(** The rounded quotient is at most half of [num]: the loop goes down. *)
Lemma floor_quotient_half num : 0 < num -> 0 <= floor_quotient num <= num / 2.
Proof.
intros Hn. rewrite floor_quotient_eq.
assert (Hhalf : 0 <= num / 2) by (apply Z.div_pos; lia).
set (a := (inject_Z num / inject_Z 62)%Q).
assert (HN : (1 <= inject_Z num)%Q)
  by (change 1%Q with (inject_Z 1); rewrite <- Zle_Qle; lia).
assert (Ha : (1 # 62 <= a)%Q)
  by (unfold a; change (inject_Z 62) with 62%Q; rewrite Qdiv_62; lra).
assert (Hpos : (0 < a)%Q) by lra.
rewrite (round_to_double_pos Hpos). cbv zeta.
pose proof (round_error Hpos) as Herr. cbv zeta in Herr.
rewrite !Qdiv_2 in Herr.
set (e := ulp_exponent a) in *.
set (r := (inject_Z (round_half_even (a / Qpow2 e)) * Qpow2 e)%Q) in *.
destruct (Qle_bool (Qpow2 1024) r); [lia|].
rewrite (Qfloor_comp _ _ (Qred_correct r)).
assert (HP : (Qpow2 e <= 2 * a)%Q).
{ pose proof (Qpow2_pos e).
  destruct (ulp_exponent_lower Hpos) as [He|He]; fold e in He.
  - rewrite He. pose proof (@Qpow2_le (-1074) (-6) ltac:(lia)) as H6.
    assert (E6 : (Qpow2 (-6) == 1 # 64)%Q) by reflexivity.
    rewrite E6 in H6. lra.
  - assert (E52 : (Qpow2 52 == 4503599627370496)%Q) by reflexivity.
    rewrite E52 in He. lra. }
split.
- assert (H0 : (0 <= r)%Q) by lra.
  apply Qfloor_resp_le in H0. exact H0.
- assert (H2 : (r <= inject_Z (2 * num) / inject_Z 62)%Q).
  { rewrite inject_Z_mult. change (inject_Z 62) with 62%Q.
    change (inject_Z 2) with 2%Q. rewrite Qdiv_62.
    unfold a in *. change (inject_Z 62) with 62%Q in *.
    rewrite Qdiv_62 in *. lra. }
  apply Qfloor_resp_le in H2. rewrite <- Zdiv_Qdiv in H2.
  apply Z.le_trans with (m := 2 * num / 62); [exact H2|].
  apply Z.div_le_lower_bound; [lia|].
  pose proof (Z.mul_div_le (2 * num) 62 ltac:(lia)).
  assert (0 <= 2 * num / 62) by (apply Z.div_pos; lia). lia.
Qed.

(** [while (num > 0) { result = ALPHABET[num % BASE] + result;
                     num = Math.floor(num / BASE); }]
    The remainder [%] of two doubles is exact. *)
Equations idToBase62_loop (num : Z) (result : string) : string
by wf (bits num) lt :=
idToBase62_loop num result with Z_gt_dec num 0 := {
  | left _ =>
      idToBase62_loop (floor_quotient num)
        (charAt BASE62_ALPHABET (Z.rem num BASE) ++ result);
  | right _ => result }.
Next Obligation. apply bits_half; [lia | apply floor_quotient_half; lia]. Qed.

Definition idToBase62 (id : value) : outcome string :=
if negb (Number_isInteger id) || Number_isNegative id then
  Throw (Error "ID must be a positive integer")
else
  let num := Number_toZ id in
  if num =? 0 then Return (charAt BASE62_ALPHABET 0)
  else Return (idToBase62_loop num "").

(** [for (let char of str) if (!ALPHABET.includes(char)) throw ...]; on 8-bit
    code units the characters the loop visits are the code units. *)
Fixpoint validate (str : string) : outcome unit :=
match str with
| EmptyString => Return tt
| String char rest =>
    if negb (includes BASE62_ALPHABET (String char EmptyString)) then
      Throw (Error ("Invalid Base62 character: " ++ String char EmptyString))
    else validate rest
end.

(** [for (i = 0; i < str.length; i++)
     result = result * BASE + ALPHABET.indexOf(str[i])] *)
Fixpoint base62ToId_loop (str : string) (result : number) : number :=
match str with
| EmptyString => result
| String char rest =>
    base62ToId_loop rest
      (Number_add (Number_mul result (NInt BASE))
         (NInt (indexOf BASE62_ALPHABET (String char EmptyString))))
end.

Definition base62ToId (str : value) : outcome number :=
match str with
| VStr s =>
    if (String.length s =? 0)%nat then
      Throw (Error "Input must be a non-empty string")
    else
      match validate s with
      | Throw e => Throw e
      | Return _ => Return (base62ToId_loop s (NInt 0))
      end
| _ => Throw (Error "Input must be a non-empty string")
end.

End Base62.


(** ** More of the JavaScript value semantics *)

(** Builtins of the platform and of the [validator] package that the
    repository calls but does not define, and the deployment's base URL
    ([process.env.BASE_URL]). *)
Class Platform := {
  (** [validator.isURL(s, { require_protocol: true,
                           protocols: ['http', 'https'] })] *)
  isURL : string -> bool;
  (** [Date.parse]: the time value in milliseconds, [None] for NaN. *)
  Date_parse : string -> option Z;
  Number_toString : number -> string;
  Date_toString : option Z -> string;
  baseUrl : string
}.

(** [a === b].  Objects compare by reference; object identities are not part
    of the model, so two object values are taken to be distinct. *)
Definition strictEquals (a b : value) : bool :=
  match a, b with
  | VUndefined, VUndefined => true
  | VNull, VNull => true
  | VBool x, VBool y => Bool.eqb x y
  | VNum (Finite p), VNum (Finite q) => Qeq_bool p q
  | VNum (Infinity x), VNum (Infinity y) => Bool.eqb x y
  | VStr s, VStr t => String.eqb s t
  | _, _ => false
  end.

(** SameValueZero, the key comparison of [Map]. *)
Definition sameValueZero (a b : value) : bool :=
  match a, b with
  | VNum NaN, VNum NaN => true
  | _, _ => strictEquals a b
  end.

(** [a || b]. *)
Definition js_or (a b : value) : value := if truthy a then a else b.

(** [new Date(v).getTime()], with [None] for NaN. *)
Definition newDate {P : Platform} (v : value) : option Z :=
  match v with
  | VDate t => t
  | VStr s => Date_parse s
  | VObject prim => Date_parse prim
  | VNum (Finite q) =>
      let t := Z.quot (Qnum q) (Zpos (Qden q)) in
      if Z.abs t <=? 8640000000000000 then Some t else None
  | VNum _ => None
  | VBool b => Some (if b then 1 else 0)
  | VNull => Some 0
  | VUndefined => None
  end.

(** [a < b] on the time values of two dates. *)
Definition Date_lt (a b : option Z) : bool :=
  match a, b with
  | Some x, Some y => x <? y
  | _, _ => false
  end.

(** [expires_at && new Date(expires_at) < new Date()], the expiry test of the
    read path and of the in-memory store. *)
Definition isExpired {P : Platform} (expires_at : value) (now : Z) : bool :=
  truthy expires_at && Date_lt (newDate expires_at) (Some now).

(** Template-literal interpolation [`${v}`]. *)
Definition ToString {P : Platform} (v : value) : string :=
  match v with
  | VUndefined => "undefined"
  | VNull => "null"
  | VBool b => if b then "true" else "false"
  | VNum n => Number_toString n
  | VStr s => s
  | VDate t => Date_toString t
  | VObject prim => prim
  end.

(** White space and line terminators among the 8-bit code units: TAB, LF,
    VT, FF, CR, space and no-break space. *)
Definition isWhiteSpace (c : ascii) : bool :=
  let n := nat_of_ascii c in
  ((9 <=? n) && (n <=? 13) || (n =? 32) || (n =? 160))%nat.

Fixpoint trimStart (s : string) : string :=
  match s with
  | EmptyString => EmptyString
  | String c s' => if isWhiteSpace c then trimStart s' else s
  end.

Fixpoint trimEnd (s : string) : string :=
  match s with
  | EmptyString => EmptyString
  | String c s' =>
      let t := trimEnd s' in
      if isWhiteSpace c && String.eqb t "" then EmptyString else String c t
  end.

(** [s.trim()]. *)
Definition trim (s : string) : string := trimEnd (trimStart s).

Definition strlen (s : string) : Z := Z.of_nat (String.length s).

(** ** Insertion-ordered [Map] with arbitrary keys *)

Module JsMap.
Section Ops.
Variable V : Type.

Definition t := list (value * V).

Fixpoint get (k : value) (m : t) : option V :=
  match m with
  | [] => None
  | (k', v) :: m' => if sameValueZero k' k then Some v else get k m'
  end.

(** An existing key keeps its position; a new key goes last. *)
Fixpoint set (k : value) (v : V) (m : t) : t :=
  match m with
  | [] => [(k, v)]
  | (k', v') :: m' =>
      if sameValueZero k' k then (k', v) :: m' else (k', v') :: set k v m'
  end.

Fixpoint delete (k : value) (m : t) : t :=
  match m with
  | [] => []
  | (k', v') :: m' =>
      if sameValueZero k' k then m' else (k', v') :: delete k m'
  end.

Definition has (k : value) (m : t) : bool :=
  match get k m with Some _ => true | None => false end.

Definition values (m : t) : list V := map snd m.
End Ops.
End JsMap.

(** ** Query results *)

(** A result row or a stored entry: an object with these properties, absent
    ones reading as [undefined]. *)
Record row := {
  id : value;
  original_url : value;
  expires_at : value;
  short_code : value;
  click_count : value;
  created_at : value;
  now : value
}.

Definition emptyRow : row :=
  {| id := VUndefined; original_url := VUndefined; expires_at := VUndefined;
     short_code := VUndefined; click_count := VUndefined;
     created_at := VUndefined; now := VUndefined |}.

Definition set_short_code (v : value) (r : row) : row :=
  {| id := id r; original_url := original_url r; expires_at := expires_at r;
     short_code := v; click_count := click_count r;
     created_at := created_at r; now := now r |}.

Definition set_click_count (v : value) (r : row) : row :=
  {| id := id r; original_url := original_url r; expires_at := expires_at r;
     short_code := short_code r; click_count := v;
     created_at := created_at r; now := now r |}.

(** [{ rows, rowCount }]; [rows = None] when the property is absent. *)
Record QueryResult := {
  rows : option (list row);
  rowCount : value
}.

(** ** The two collaborators of the services *)

(** [db.query(sql, params)], run at clock reading [now] on store state [D]. *)
Class Database (D : Type) := {
  db_query : string -> list value -> Z -> D -> outcome QueryResult * D
}.

(** [cache.isReady], [cache.get], [cache.set(key, value, { EX })],
    [cache.del], on cache state [C]. *)
Class CacheClient (C : Type) := {
  cache_isReady : C -> bool;
  cache_get : value -> C -> outcome value * C;
  cache_set : value -> value -> Z -> C -> outcome value * C;
  cache_del : value -> C -> outcome value * C
}.

(** ** Sequencing of effects

    The world a request runs in: the store, the cache and the clock reading
    that [new Date()] returns while the request is served. *)

Section World.
Variables D C : Type.

Record world := {
  db_state : D;
  cache_state : C;
  clock : Z
}.

Definition M (A : Type) : Type := world -> outcome A * world.

Definition ret {A} (a : A) : M A := fun w => (Return a, w).

Definition throw {A} (e : error) : M A := fun w => (Throw e, w).

Definition bind {A B} (m : M A) (k : A -> M B) : M B :=
  fun w =>
    match m w with
    | (Return a, w') => k a w'
    | (Throw e, w') => (Throw e, w')
    end.

(** [try { body } catch (error) { handler }] *)
Definition try_catch {A} (body : M A) (handler : error -> M A) : M A :=
  fun w =>
    match body w with
    | (Return a, w') => (Return a, w')
    | (Throw e, w') => handler e w'
    end.

(** [p.catch(err => console.error(...))] on a promise nobody awaits. *)
Definition detach {A} (m : M A) : M unit :=
  fun w => (Return tt, snd (m w)).

(** [new Date()]. *)
Definition Date_now : M Z := fun w => (Return (clock w), w).

(** [await db.query(sql, params)]. *)
Definition query `{Database D} (sql : string) (params : list value)
  : M QueryResult :=
  fun w =>
    let (r, d) := db_query sql params (clock w) (db_state w) in
    (r, {| db_state := d; cache_state := cache_state w; clock := clock w |}).

Definition on_cache {A} (f : C -> outcome A * C) : M A :=
  fun w =>
    let (r, c) := f (cache_state w) in
    (r, {| db_state := db_state w; cache_state := c; clock := clock w |}).

Definition cache_ready `{CacheClient C} : M bool :=
  fun w => (Return (cache_isReady (cache_state w)), w).
End World.

Arguments ret {D C A} a.
Arguments throw {D C A} e.
Arguments bind {D C A B} m k.
Arguments try_catch {D C A} body handler.
Arguments detach {D C A} m.
Arguments Date_now {D C}.
Arguments query {D C _} sql params.
Arguments on_cache {D C A} f.
Arguments cache_ready {D C _}.

Declare Scope js_scope.
Delimit Scope js_scope with js.
Notation "x <- m ;; k" := (bind m (fun x => k))
  (at level 61, m at next level, right associativity) : js_scope.
Notation "m ;; k" := (bind m (fun _ => k))
  (at level 61, right associativity) : js_scope.
Open Scope js_scope.

(** ** src/config.js *)

Module config.
Definition redis_ttl : Z := 86400.
Definition app_maxUrlLength : Z := 2048.
End config.

(** ** src/db/client.js: the in-memory store *)

Record MockDb := {
  urls : JsMap.t row;
  currentId : Z
}.

(** [(v || 0) + 1]. *)
Definition increment {P : Platform} (v : value) : value :=
  match js_or v (VInt 0) with
  | VNum (Finite q) => VNum (Finite (q + 1))
  | VNum n => VNum n
  | VBool b => VInt ((if b then 1 else 0) + 1)
  | VNull => VInt 1
  | VUndefined => VNum NaN
  | VStr s => VStr (s ++ "1")
  | VDate t => VStr (Date_toString t ++ "1")
  | VObject prim => VStr (prim ++ "1")
  end.

(** [const entry = list.find(p); if (entry) mutate(entry)]: the first entry
    satisfying [p] is updated in place. *)
Fixpoint update_first {K V} (p : V -> bool) (f : V -> V) (m : list (K * V))
  : list (K * V) :=
  match m with
  | [] => []
  | (k, v) :: m' => if p v then (k, f v) :: m' else (k, v) :: update_first p f m'
  end.

(** [urls.forEach((entry, id) => { if (expired(entry)) { deleted.push(entry);
    urls.delete(id); } })] *)
Definition delete_expired {P : Platform} (now : Z) (m : JsMap.t row)
  : list row * JsMap.t row :=
  fold_left
    (fun acc kv =>
       if isExpired (expires_at (snd kv)) now
       then ((fst acc ++ [snd kv])%list, JsMap.delete (fst kv) (snd acc))
       else acc)
    m ([], m).

Definition mock_query {P : Platform} (sql : string) (params : list value)
  (now_ : Z) (st : MockDb) : outcome QueryResult * MockDb :=
  if includes sql "INSERT INTO urls"
     && strictEquals (nth 2 params VUndefined) (VStr "TEMP") then
    (* Initial insert *)
    (Return {| rows := Some [ {| id := VInt (currentId st);
                                 original_url := VUndefined;
                                 expires_at := VUndefined;
                                 short_code := VUndefined;
                                 click_count := VUndefined;
                                 created_at := VUndefined;
                                 now := VUndefined |} ];
               rowCount := VUndefined |},
     {| urls := urls st; currentId := currentId st + 1 |})
  else if includes sql "UPDATE urls SET short_code" then
    (Return {| rows := None; rowCount := VInt 1 |}, st)
  else if includes sql "SELECT" && includes sql "short_code = $1" then
    (* SELECT by short_code *)
    let shortCode := nth 0 params VUndefined in
    match find (fun u => strictEquals (short_code u) shortCode)
               (JsMap.values (urls st)) with
    | Some entry => (Return {| rows := Some [entry]; rowCount := VInt 1 |}, st)
    | None => (Return {| rows := Some []; rowCount := VInt 0 |}, st)
    end
  else if includes sql "SELECT short_code FROM urls WHERE original_url" then
    (* SELECT for duplicate check *)
    let originalUrl := nth 0 params VUndefined in
    match find (fun u => strictEquals (original_url u) originalUrl)
               (JsMap.values (urls st)) with
    | Some entry =>
        (Return {| rows := Some [ {| id := VUndefined;
                                     original_url := VUndefined;
                                     expires_at := VUndefined;
                                     short_code := short_code entry;
                                     click_count := VUndefined;
                                     created_at := VUndefined;
                                     now := VUndefined |} ];
                   rowCount := VUndefined |}, st)
    | None => (Return {| rows := Some []; rowCount := VUndefined |}, st)
    end
  else if includes sql "INSERT" && (2 <=? Z.of_nat (length params)) then
    (* INSERT with all fields *)
    let id_ := VInt (currentId st) in
    let entry :=
      {| id := id_;
         original_url := nth 0 params VUndefined;
         expires_at := nth 1 params VUndefined;
         short_code := js_or (nth 2 params VUndefined)
                             (VStr ("temp" ++ ToString id_));
         click_count := VInt 0;
         created_at := VDate (Some now_);
         now := VUndefined |} in
    (Return {| rows := Some [entry]; rowCount := VInt 1 |},
     {| urls := JsMap.set id_ entry (urls st); currentId := currentId st + 1 |})
  else if includes sql "UPDATE" && (2 <=? Z.of_nat (length params)) then
    (* UPDATE with short_code *)
    let shortCode := nth 0 params VUndefined in
    let id_ := nth 1 params VUndefined in
    (Return {| rows := None; rowCount := VInt 1 |},
     match JsMap.get id_ (urls st) with
     | Some entry =>
         {| urls := JsMap.set id_ (set_short_code shortCode entry) (urls st);
            currentId := currentId st |}
     | None => st
     end)
  else if includes sql "click_count = click_count + 1" then
    (* UPDATE click count *)
    let shortCode := nth 0 params VUndefined in
    (Return {| rows := None; rowCount := VInt 1 |},
     {| urls := update_first
                  (fun u => strictEquals (short_code u) shortCode)
                  (fun u => set_click_count (increment (click_count u)) u)
                  (urls st);
        currentId := currentId st |})
  else if includes sql "DELETE FROM urls WHERE expires_at" then
    (* DELETE expired URLs *)
    let (deleted, remaining) := delete_expired now_ (urls st) in
    (Return {| rows := Some deleted;
               rowCount := VInt (Z.of_nat (length deleted)) |},
     {| urls := remaining; currentId := currentId st |})
  else if includes sql "SELECT NOW()" then
    (Return {| rows := Some [ {| id := VUndefined;
                                 original_url := VUndefined;
                                 expires_at := VUndefined;
                                 short_code := VUndefined;
                                 click_count := VUndefined;
                                 created_at := VUndefined;
                                 now := VDate (Some now_) |} ];
               rowCount := VInt 1 |}, st)
  else
    (Return {| rows := Some []; rowCount := VInt 0 |}, st).

#[export] Instance MockDatabase {P : Platform} : Database MockDb :=
  {| db_query := mock_query |}.

(** ** src/cache/client.js: the in-memory cache

    The [setTimeout] that evicts an entry after its TTL is real time and is
    left out. *)

Record MockCache := {
  isReady : bool;
  memoryCache : JsMap.t value
}.

Definition mock_connect (c : MockCache) : MockCache :=
  {| isReady := true; memoryCache := memoryCache c |}.

Definition mock_get (key : value) (c : MockCache) : outcome value * MockCache :=
  (Return (js_or (match JsMap.get key (memoryCache c) with
                  | Some v => v
                  | None => VUndefined
                  end) VNull), c).

Definition mock_set (key v : value) (ex : Z) (c : MockCache)
  : outcome value * MockCache :=
  (Return (VStr "OK"),
   {| isReady := isReady c; memoryCache := JsMap.set key v (memoryCache c) |}).

Definition mock_del (key : value) (c : MockCache) : outcome value * MockCache :=
  (Return (VBool (JsMap.has key (memoryCache c))),
   {| isReady := isReady c; memoryCache := JsMap.delete key (memoryCache c) |}).

#[export] Instance MockCacheClient : CacheClient MockCache :=
  {| cache_isReady := isReady;
     cache_get := mock_get;
     cache_set := mock_set;
     cache_del := mock_del |}.

(** ** The services *)

Definition LF : string := String (ascii_of_nat 10) EmptyString.

(** The SQL texts, character for character as the services pass them
    (template literals keep their line breaks and indentation). *)
Module SQL.
Definition select_by_code : string :=
  "SELECT original_url, expires_at " ++ LF ++
  "       FROM urls " ++ LF ++
  "       WHERE short_code = $1".
Definition increment_clicks : string :=
  "UPDATE urls SET click_count = click_count + 1 WHERE short_code = $1".
Definition delete_by_code : string :=
  "DELETE FROM urls WHERE short_code = $1".
Definition select_duplicate : string :=
  "SELECT short_code FROM urls WHERE original_url = $1 AND expires_at IS NULL LIMIT 1".
Definition insert_url : string :=
  "INSERT INTO urls (original_url, expires_at, short_code)" ++ LF ++
  "       VALUES ($1, $2, $3)" ++ LF ++
  "       RETURNING id".
Definition update_code : string :=
  "UPDATE urls SET short_code = $1 WHERE id = $2".
Definition delete_expired : string :=
  "DELETE FROM urls " ++ LF ++
  "       WHERE expires_at IS NOT NULL " ++ LF ++
  "       AND expires_at < NOW()" ++ LF ++
  "       RETURNING short_code".
End SQL.

(** [{ shortCode, shortUrl, originalUrl, isNew }] *)
Record ShortUrl := {
  shortCode : value;
  shortUrl : string;
  originalUrl : string;
  isNew : bool
}.

Section Services.
Context {P : Platform} {D C : Type} {db : Database D} {cache : CacheClient C}.

Local Abbreviation M := (M D C).

Definition lift {A} (o : outcome A) : M A := fun w => (o, w).

(** [result.rows], whose [.length] or [[0]] is read next. *)
Definition get_rows (result : QueryResult) : M (list row) :=
  match rows result with
  | Some rs => ret rs
  | None => throw (TypeError "Cannot read properties of undefined")
  end.

(** [result.rows[0].id] *)
Definition first_row_id (result : QueryResult) : M value :=
  rs <- get_rows result;;
  match rs with
  | r :: _ => ret (id r)
  | [] => throw (TypeError "Cannot read properties of undefined")
  end.

(** [if (cache.isReady) await cache.set(key, v, { EX: config.redis.ttl })]
    inside [try { } catch { console.warn }]. *)
Definition warm_cache (key v : value) : M unit :=
  try_catch
    (ready <- cache_ready;;
     if (ready : bool) then on_cache (cache_set key v config.redis_ttl);; ret tt
     else ret tt)
    (fun _ => ret tt).

(** [try { await cache.del(key) } catch { console.warn }] *)
Definition evict (key : value) : M unit :=
  try_catch (on_cache (cache_del key);; ret tt) (fun _ => ret tt).

(** *** src/services/redirect-service.js *)

Definition incrementClickCount (shortCode : value) : M unit :=
  query SQL.increment_clicks [shortCode];; ret tt.

Definition deleteExpiredUrl (shortCode : value) : M unit :=
  query SQL.delete_by_code [shortCode];;
  evict shortCode.

(** Step 1 of the read path: [cachedUrl] after the guarded lookup. *)
Definition cache_lookup (shortCode : value) : M value :=
  try_catch
    (ready <- cache_ready;;
     if (ready : bool) then on_cache (cache_get shortCode)
     else ret VUndefined)
    (fun _ => ret VUndefined).

(** Steps 2 to 5 of the read path, taken on a cache miss. *)
Definition store_lookup (shortCode : value) : M value :=
  result <- query SQL.select_by_code [shortCode];;
  rs <- get_rows result;;
  match rs with
  | [] => ret VNull
  | r :: _ =>
      now_ <- Date_now;;
      if isExpired (expires_at r) now_ then
        detach (deleteExpiredUrl shortCode);;
        ret VNull
      else
        warm_cache shortCode (original_url r);;
        detach (incrementClickCount shortCode);;
        ret (original_url r)
  end.

Definition getOriginalUrl (shortCode : value) : M value :=
  cachedUrl <- cache_lookup shortCode;;
  if truthy cachedUrl then
    detach (incrementClickCount shortCode);;
    ret cachedUrl
  else store_lookup shortCode.

(** *** src/services/url-service.js *)

(** The deduplication block: [Some code] when it returns from the function,
    [None] when control falls through to the insert. *)
Definition find_duplicate (originalUrl : string) (options_expires_at : value)
  : M (option value) :=
  if negb (truthy options_expires_at) then
    try_catch
      (existing <- query SQL.select_duplicate [VStr originalUrl];;
       rs <- get_rows existing;;
       match rs with
       | r :: _ => ret (Some (short_code r))
       | [] => ret None
       end)
      (fun _ => ret None)
  else ret None.

Definition createShortUrl (originalUrl options_expires_at : value)
  : M ShortUrl :=
  if negb (truthy originalUrl)
     || negb (String.eqb (typeof originalUrl) "string") then
    throw (Error "URL is required")
  else
    let originalUrl :=
      trim (match originalUrl with VStr s => s | _ => "" end) in
    if negb (isURL originalUrl) then
      throw (Error "Invalid URL format. Must include http:// or https://")
    else if config.app_maxUrlLength <? strlen originalUrl then
      throw (Error "URL too long. Maximum length is 2048 characters")
    else
      existing <- find_duplicate originalUrl options_expires_at;;
      match existing with
      | Some shortCode =>
          ret {| shortCode := shortCode;
                 shortUrl := baseUrl ++ "/" ++ ToString shortCode;
                 originalUrl := originalUrl;
                 isNew := false |}
      | None =>
          result <- query SQL.insert_url
                      [VStr originalUrl; js_or options_expires_at VNull;
                       VStr "TEMP"];;
          id_ <- first_row_id result;;
          shortCode <- lift (Base62.idToBase62 id_);;
          query SQL.update_code [VStr shortCode; id_];;
          warm_cache (VStr shortCode) (VStr originalUrl);;
          ret {| shortCode := VStr shortCode;
                 shortUrl := baseUrl ++ "/" ++ shortCode;
                 originalUrl := originalUrl;
                 isNew := true |}
      end.

Fixpoint evict_rows (rs : list row) : M unit :=
  match rs with
  | [] => ret tt
  | r :: rs' => evict (short_code r);; evict_rows rs'
  end.

Definition cleanupExpiredUrls : M value :=
  result <- query SQL.delete_expired [];;
  rs <- get_rows result;;
  (if 0 <? Z.of_nat (length rs) then evict_rows rs else ret tt);;
  ret (rowCount result).

(** *** src/routes.js: POST /api/shorten *)

Inductive json :=
| JsonError (error : string)
| JsonErrorExample (error : string) (example_url : string)
| JsonShortUrl (result : ShortUrl).

Record response := {
  status : Z;
  body : json
}.

Definition respond_created (url expiresAt : value) : M response :=
  result <- createShortUrl url expiresAt;;
  ret {| status := 201; body := JsonShortUrl result |}.

Definition post_shorten_body (url expires_at : value) : M response :=
  if negb (truthy url) then
    ret {| status := 400;
           body := JsonErrorExample "URL is required" "https://example.com" |}
  else if truthy expires_at then
    let expiresAt := newDate expires_at in
    match expiresAt with
    | None =>
        ret {| status := 400;
               body := JsonError "Invalid expires_at format. Use ISO 8601 format (e.g., 2024-12-31T23:59:59Z)" |}
    | Some _ =>
        now_ <- Date_now;;
        if Date_lt expiresAt (Some now_) then
          ret {| status := 400;
                 body := JsonError "expires_at must be in the future" |}
        else respond_created url (VDate expiresAt)
    end
  else respond_created url VNull.

(** The handler with its [catch (error)], which answers 400 with
    [error.message]. *)
Definition post_shorten (url expires_at : value)
  : world D C -> response * world D C :=
  fun w =>
    match post_shorten_body url expires_at w with
    | (Return r, w') => (r, w')
    | (Throw e, w') => ({| status := 400; body := JsonError (message e) |}, w')
    end.
End Services.

(** ** Vocabulary of the statements *)

(** The value of a digit symbol: digits, then lowercase, then uppercase. *)
Definition digitValue (c : ascii) : Z :=
  let n := Z.of_nat (nat_of_ascii c) in
  if (48 <=? n) && (n <=? 57) then n - 48
  else if (97 <=? n) && (n <=? 122) then n - 97 + 10
  else n - 65 + 36.

(** The symbol of a digit value, as a one-character string. *)
Definition symbol (d : Z) : string :=
  let n := if d <? 10 then 48 + d else if d <? 36 then 97 + (d - 10) else 65 + (d - 36) in
  String (ascii_of_nat (Z.to_nat n)) EmptyString.

(** The string written with the digits [ds], most significant first. *)
Fixpoint symbols (ds : list Z) : string :=
  match ds with
  | [] => EmptyString
  | d :: ds' => symbol d ++ symbols ds'
  end.

(** Positional value of the digits [ds], most significant first, continuing
    from the value [r] of the digits already read. *)
Definition horner (r : Z) (ds : list Z) : Z :=
  fold_left (fun acc d => acc * 62 + d) ds r.

Definition in_alphabet (c : ascii) : Prop :=
  In c (list_ascii_of_string Base62.BASE62_ALPHABET).

(** The number denoted by [v] is a mathematical integer. *)
Definition is_integer (v : value) : Prop :=
  exists q z, v = VNum (Finite q) /\ (q == inject_Z z)%Q.

(** [v] is a number below zero. *)
Definition is_negative (v : value) : Prop :=
  (exists q, v = VNum (Finite q) /\ (q < 0)%Q) \/ v = VNum (Infinity true).

(** Checks, for one digit value [d], that position [d] of the alphabet holds
    the symbol of [d] and that the lookups of the decoder find it there. *)
Definition digit_ok (d : Z) : bool :=
  String.eqb (charAt Base62.BASE62_ALPHABET d) (symbol d)
  && match symbol d with
     | String c EmptyString =>
         includes Base62.BASE62_ALPHABET (String c EmptyString)
         && (indexOf Base62.BASE62_ALPHABET (String c EmptyString) =? d)
         && (digitValue c =? d)
     | _ => false
     end.

Definition toLowerCase_ascii (c : ascii) : ascii :=
  let n := nat_of_ascii c in
  if ((65 <=? n) && (n <=? 90))%nat then ascii_of_nat (n + 32) else c.

Fixpoint toLowerCase (s : string) : string :=
  match s with
  | EmptyString => EmptyString
  | String c s' => String (toLowerCase_ascii c) (toLowerCase s')
  end.

(** [s] opens with the scheme [http://] or [https://], in any letter case. *)
Definition has_http_scheme (s : string) : bool :=
  String.prefix "http://" (toLowerCase s)
  || String.prefix "https://" (toLowerCase s).

(** The three errors [createShortUrl] raises while validating its input. *)
Definition is_validation_error (e : error) : Prop :=
  e = Error "URL is required"
  \/ e = Error "Invalid URL format. Must include http:// or https://"
  \/ e = Error "URL too long. Maximum length is 2048 characters".

(** [expires_at] is set and denotes an instant before [now_]. *)
Definition lies_in_past {P : Platform} (expires_at : value) (now_ : Z) : Prop :=
  truthy expires_at = true
  /\ exists t, newDate expires_at = Some t /\ t < now_.

(** [r] is the entry that [list.find(p)] returns on the entries of [m]. *)
Definition first_record (p : row -> bool) (m : JsMap.t row) (r : row) : Prop :=
  exists before k after,
    m = (before ++ (k, r) :: after)%list
    /\ p r = true
    /\ Forall (fun kv => p (snd kv) = false) before.

Definition no_record (p : row -> bool) (m : JsMap.t row) : Prop :=
  Forall (fun kv => p (snd kv) = false) m.

(** The keys of a [Map]: each equal to itself and to no later key. *)
Fixpoint well_keyed {V} (m : JsMap.t V) : Prop :=
  match m with
  | [] => True
  | (k, _) :: m' =>
      sameValueZero k k = true
      /\ Forall (fun kv => sameValueZero k (fst kv) = false) m'
      /\ well_keyed m'
  end.

Definition expired_entry {P : Platform} (now_ : Z) (kv : value * row) : bool :=
  isExpired (expires_at (snd kv)) now_.

Definition has_code (code : value) (r : row) : bool :=
  strictEquals (short_code r) code.

Definition has_url (url : value) (r : row) : bool :=
  strictEquals (original_url r) url.

(** The cache is available and answers the lookup of [key] with the usable
    value [u]. *)
Definition cache_hit {C} {cache : CacheClient C} (key : value) (c : C)
  (u : value) : Prop :=
  cache_isReady c = true
  /\ (exists c', cache_get key c = (Return u, c'))
  /\ truthy u = true.

Definition cache_miss {C} {cache : CacheClient C} (key : value) (c : C) : Prop :=
  forall u, ~ cache_hit key c u.

(** A service run without any cache: the client is never ready. *)
#[export] Instance NoCache : CacheClient unit :=
  {| cache_isReady := fun _ => false;
     cache_get := fun _ c => (Return VNull, c);
     cache_set := fun _ _ _ c => (Return (VStr "OK"), c);
     cache_del := fun _ c => (Return (VBool false), c) |}.

(** A cache that reports itself ready and fails every operation. *)
Definition FailingCache : CacheClient unit :=
  {| cache_isReady := fun _ => true;
     cache_get := fun _ c => (Throw (Error "ECONNREFUSED"), c);
     cache_set := fun _ _ _ c => (Throw (Error "ECONNREFUSED"), c);
     cache_del := fun _ c => (Throw (Error "ECONNREFUSED"), c) |}.

Definition without_cache {D C} (w : world D C) : world D unit :=
  {| db_state := db_state w; cache_state := tt; clock := clock w |}.

(** Two runs agree on what the caller and the store observe. *)
Definition same_result {D C C' A}
  (r : outcome A * world D C) (r' : outcome A * world D C') : Prop :=
  fst r = fst r'
  /\ db_state (snd r) = db_state (snd r')
  /\ clock (snd r) = clock (snd r').

(** Worlds with different caches that agree on the store and the clock, and
    computations that preserve the agreement. *)
Section Simulation.
Context {D C C' : Type}.

Definition related (w : world D C) (w' : world D C') : Prop :=
  db_state w = db_state w' /\ clock w = clock w'.

(** Same outcome, related final worlds. *)
Definition sim {A} (m : M D C A) (m' : M D C' A) : Prop :=
  forall w w', related w w' ->
    fst (m w) = fst (m' w') /\ related (snd (m w)) (snd (m' w')).

(** Related final worlds, whatever the outcomes. *)
Definition sim_state {A B} (m : M D C A) (m' : M D C' B) : Prop :=
  forall w w', related w w' -> related (snd (m w)) (snd (m' w')).
End Simulation.

(** ** A concrete deployment for the examples *)

Fixpoint no_whitespace (s : string) : bool :=
  match s with
  | EmptyString => true
  | String c s' => negb (isWhiteSpace c) && no_whitespace s'
  end.

Fixpoint replicate (n : nat) (c : ascii) : string :=
  match n with
  | O => EmptyString
  | S n' => String c (replicate n' c)
  end.

(** Decimal notation of the integers and the names of the special numbers;
    the examples print no other number. *)
Definition example_Number_toString (n : number) : string :=
  match n with
  | Finite q => NilZero.string_of_int (Z.to_int (Qfloor q))
  | NaN => "NaN"
  | Infinity negative => if negative then "-Infinity" else "Infinity"
  end.

(** A platform to run the examples on.  Its [isURL] accepts the strings that
    open with an http or https scheme, contain no white space and are shorter
    than 2083 characters, which [validator.isURL] requires of every URL it
    accepts; the URLs of the examples are accepted by both.  Its [Date.parse]
    recognises no format: the examples give instants as epoch milliseconds
    or as [Date] objects, and print no date. *)
Definition examplePlatform : Platform :=
  {| isURL := fun s =>
       has_http_scheme s && no_whitespace s && (strlen s <? 2083);
     Date_parse := fun _ => None;
     Number_toString := example_Number_toString;
     Date_toString := fun _ => "Invalid Date";
     baseUrl := "http://localhost:3000" |}.

#[local] Existing Instance examplePlatform.

Definition url_a : string := "https://example.com/a".

(** [url_a] behind 2030 spaces: 2051 characters, 21 once trimmed. *)
Definition padded_url : string := replicate 2030 " " ++ url_a.

(** The entry that [db.query] stores, at clock reading 1000, for an insert of
    [url], [expires] and [code] that obtains the id [id_]. *)
Definition entry (id_ : Z) (url : string) (expires : value) (code : string)
  : value * row :=
  (VInt id_,
   {| id := VInt id_; original_url := VStr url; expires_at := expires;
      short_code := VStr code; click_count := VInt 0;
      created_at := VDate (Some 1000); now := VUndefined |}).

(** An empty store and an empty, connected cache, at clock reading 1000. *)
Definition fresh_world : world MockDb MockCache :=
  {| db_state := {| urls := []; currentId := 1 |};
     cache_state := {| isReady := true; memoryCache := [] |};
     clock := 1000 |}.

Definition store_of (m : JsMap.t row) (next : Z) : world MockDb MockCache :=
  {| db_state := {| urls := m; currentId := next |};
     cache_state := {| isReady := true; memoryCache := [] |};
     clock := 1000 |}.

(** The deployment before [cache.connect()] has run, after a direct
    [cache.set("1", url_a)]: the cache holds the entry and is not ready. *)
Definition unconnected_world : world MockDb MockCache :=
  {| db_state := {| urls := []; currentId := 1 |};
     cache_state :=
       snd (mock_set (VStr "1") (VStr url_a) config.redis_ttl
              {| isReady := false; memoryCache := [] |});
     clock := 1000 |}.

(** The in-memory store behind a connection that drops the duplicate check:
    that one statement throws, every other one is served as usual. *)
Definition flaky_query {P : Platform} (sql : string) (params : list value)
  (now_ : Z) (st : MockDb) : outcome QueryResult * MockDb :=
  if String.eqb sql SQL.select_duplicate then
    (Throw (Error "Connection terminated unexpectedly"), st)
  else mock_query sql params now_ st.

Definition FlakyDatabase {P : Platform} : Database MockDb :=
  {| db_query := flaky_query |}.

(** Seeding the store the way a test does, through [db.query] with all the
    fields of the record. *)
Definition seed (url : string) (expires : value) (code : string)
  (w : world MockDb MockCache) : world MockDb MockCache :=
  snd (query "INSERT INTO urls (original_url, expires_at, short_code) VALUES ($1, $2, $3)"
         [VStr url; expires; VStr code] w).

(** ** The rest of the modules *)

(** *** lib/id-generator.js: [getCapacity]

    [Math.pow] is a builtin of the engine, whose result the language leaves
    implementation-approximated.  [estimateLength], a quotient of
    floating-point logarithms, is left out. *)
Class MathLibrary := {
  Math_pow : number -> number -> number
}.

Definition getCapacity {ML : MathLibrary} (length : number) : number :=
  Math_pow (NInt Base62.BASE) length.

(** The SQL texts of [getUrlStats] and [preloadCache]. *)
Module SQLMore.
Definition select_stats : string :=
  "SELECT " ++ LF ++
  "        short_code," ++ LF ++
  "        original_url," ++ LF ++
  "        click_count," ++ LF ++
  "        created_at," ++ LF ++
  "        expires_at" ++ LF ++
  "       FROM urls " ++ LF ++
  "       WHERE short_code = $1".
Definition select_popular : string :=
  "SELECT short_code, original_url " ++ LF ++
  "       FROM urls " ++ LF ++
  "       WHERE expires_at IS NULL OR expires_at > NOW()" ++ LF ++
  "       ORDER BY click_count DESC " ++ LF ++
  "       LIMIT $1".
End SQLMore.

(** [/^[0-9a-zA-Z]+$/.test(s)] *)
Definition isAlphanumeric (c : ascii) : bool :=
  let n := nat_of_ascii c in
  ((48 <=? n) && (n <=? 57) || (97 <=? n) && (n <=? 122)
   || (65 <=? n) && (n <=? 90))%nat.

Definition matches_base62 (s : string) : bool :=
  negb (String.eqb s "") && forallb isAlphanumeric (list_ascii_of_string s).

(** What the redirect route sends: [res.status(n).send(text)] or
    [res.redirect(n, location)]. *)
Inductive reply :=
| Send (status_ : Z) (text : string)
| Redirect (status_ : Z) (location : value).

(** What the statistics route sends: [res.json(stats)] or
    [res.status(n).json({ error })]. *)
Inductive stats_reply :=
| StatsJson (status_ : Z) (stats : row)
| StatsError (status_ : Z) (error : string).

(** What the cleanup route sends: [{ message, deletedCount }] or
    [res.status(500).json({ error })]. *)
Inductive cleanup_reply :=
| CleanupJson (status_ : Z) (message_ : string) (deletedCount : value)
| CleanupError (status_ : Z) (error : string).

Section MoreServices.
Context {P : Platform} {D C : Type} {db : Database D} {cache : CacheClient C}.

Local Abbreviation M := (M D C).

(** *** services/url-service.js: [getUrlStats] *)

(** The row, or [None] for [null]. *)
Definition getUrlStats (shortCode : value) : M (option row) :=
  result <- query SQLMore.select_stats [shortCode];;
  rs <- get_rows result;;
  match rs with
  | [] => ret None
  | r :: _ => ret (Some r)
  end.

(** *** services/redirect-service.js: [preloadCache] *)

(** [for (const row of rows) { try { await cache.set(...); loaded++; }
                                catch { console.warn } }] *)
Fixpoint preload_rows (rs : list row) (loaded : Z) : M Z :=
  match rs with
  | [] => ret loaded
  | r :: rs' =>
      loaded' <- try_catch
                   (on_cache (cache_set (short_code r) (original_url r)
                                config.redis_ttl);;
                    ret (loaded + 1))
                   (fun _ => ret loaded);;
      preload_rows rs' loaded'
  end.

Definition preloadCache (limit : value) : M Z :=
  result <- query SQLMore.select_popular [limit];;
  match rows result with
  | None => throw (TypeError "result.rows is not iterable")
  | Some rs => preload_rows rs 0
  end.

(** *** routes.js: GET /:shortCode *)

(** [config.app.redirectType] as [routes.js] evaluates it: the module
    imports [express] and the two services and nothing named [config], so
    the reference throws a ReferenceError. *)
Definition routes_config_redirectType : M Z :=
  throw (Error "config is not defined").

Definition get_shortCode_body (shortCode : string) : M reply :=
  if negb (matches_base62 shortCode) then
    ret (Send 400 "Invalid short code format")
  else if 10 <? strlen shortCode then
    ret (Send 400 "Short code too long")
  else
    originalUrl <- getOriginalUrl (VStr shortCode);;
    if negb (truthy originalUrl) then
      ret (Send 404 "URL not found or expired")
    else
      redirectType <- routes_config_redirectType;;
      ret (Redirect redirectType originalUrl).

(** The handler with its [catch (error)], which answers 500. *)
Definition get_shortCode (shortCode : string)
  : world D C -> reply * world D C :=
  fun w =>
    match get_shortCode_body shortCode w with
    | (Return r, w') => (r, w')
    | (Throw _, w') => (Send 500 "Internal server error", w')
    end.

(** *** routes.js: GET /api/stats/:shortCode *)

Definition get_stats_body (shortCode : string) : M stats_reply :=
  if negb (matches_base62 shortCode) then
    ret (StatsError 400 "Invalid short code format")
  else
    stats <- getUrlStats (VStr shortCode);;
    match stats with
    | None => ret (StatsError 404 "URL not found")
    | Some r => ret (StatsJson 200 r)
    end.

Definition get_stats (shortCode : string)
  : world D C -> stats_reply * world D C :=
  fun w =>
    match get_stats_body shortCode w with
    | (Return r, w') => (r, w')
    | (Throw _, w') => (StatsError 500 "Internal server error", w')
    end.

(** *** routes.js: POST /api/admin/cleanup *)

Definition post_admin_cleanup : world D C -> cleanup_reply * world D C :=
  fun w =>
    match cleanupExpiredUrls w with
    | (Return deleted, w') =>
        (CleanupJson 200 "Cleanup completed" deleted, w')
    | (Throw _, w') => (CleanupError 500 "Cleanup failed", w')
    end.
End MoreServices.

(** ** Vocabulary of the further statements *)


(** An entry without its click counter. *)
Definition forget_clicks (kv : value * row) : value * row :=
  (fst kv, set_click_count VUndefined (snd kv)).


(** A store that answers every statement with the same result. *)
Definition FixedDatabase (res : QueryResult) : Database unit :=
  {| db_query := fun _ _ _ d => (Return res, d) |}.

(** A row as the statements that select codes and URLs return it. *)
Definition code_row (code url : string) : row :=
  {| id := VUndefined; original_url := VStr url; expires_at := VUndefined;
     short_code := VStr code; click_count := VUndefined;
     created_at := VUndefined; now := VUndefined |}.

(** The store after the first insert of [createShortUrl]: an id is taken,
    no record is stored. *)
Definition take_id (st : MockDb) : MockDb :=
  {| urls := urls st; currentId := currentId st + 1 |}.


(** The world [w] with the store [d] in place of its own. *)
Definition with_db {D C} (d : D) (w : world D C) : world D C :=
  {| db_state := d; cache_state := cache_state w; clock := clock w |}.

(** A computation that leaves the cache as it found it. *)
Definition keeps_cache {D C A} (m : M D C A) : Prop :=
  forall w, cache_state (snd (m w)) = cache_state w.

(** The engine computes without error the powers of 62 up to [62^10], which
    are doubles. *)
Definition pow_exact (ML : MathLibrary) : Prop :=
  forall L, 0 <= L <= 10 -> Math_pow (NInt 62) (NInt L) = NInt (62 ^ L).

(** An engine whose [Math.pow] is correctly rounded on integral exponents;
    the examples use no other exponents. *)
Definition exampleMath : MathLibrary :=
  {| Math_pow := fun b e =>
       match b, e with
       | Finite x, Finite y =>
           if Number_isInteger (VNum e) then round_to_double (x ^ Qfloor y)
           else NaN
       | _, _ => NaN
       end |}.


(** * Properties of the codec *)

Lemma string_app_assoc (s1 s2 s3 : string) : (s1 ++ s2) ++ s3 = s1 ++ s2 ++ s3.
Proof. induction s1 as [|c s1 IH]; simpl; [reflexivity | now rewrite IH]. Qed.

Lemma string_app_nil_r (s : string) : s ++ "" = s.
Proof. induction s as [|c s IH]; simpl; [reflexivity | now rewrite IH]. Qed.

Section CodecFacts.
Import Base62.

Lemma includes_char s c :
  includes s (String c EmptyString) = true <-> In c (list_ascii_of_string s).
Proof.
  induction s as [|a s IH]; simpl.
  - split; [discriminate | tauto].
  - destruct (ascii_dec c a) as [->|Hne].
    + split; [tauto|]. intros _.
      destruct s; reflexivity.
    + rewrite orb_false_l, IH. split; [tauto|]. intros [Heq|Hin]; congruence.
Qed.

Lemma digits_ok : forallb digit_ok (map Z.of_nat (seq 0 62)) = true.
Proof. vm_compute. reflexivity. Qed.

Lemma digit_ok_range d : 0 <= d < 62 -> digit_ok d = true.
Proof.
  intros Hd. pose proof digits_ok as Hall.
  rewrite forallb_forall in Hall. apply Hall.
  apply in_map_iff. exists (Z.to_nat d). split; [lia|].
  apply in_seq. lia.
Qed.

Lemma digit_spec d :
  0 <= d < 62 ->
  exists c, symbol d = String c EmptyString
            /\ charAt BASE62_ALPHABET d = String c EmptyString
            /\ in_alphabet c
            /\ indexOf BASE62_ALPHABET (String c EmptyString) = d
            /\ digitValue c = d.
Proof.
  intros Hd. pose proof (digit_ok_range Hd) as Hok.
  unfold digit_ok in Hok. apply andb_prop in Hok as [Hc Hs].
  apply String.eqb_eq in Hc.
  assert (Hsym : exists c, symbol d = String c EmptyString)
    by (unfold symbol; eauto).
  destruct Hsym as [c Hsym]. rewrite Hsym in *.
  apply andb_prop in Hs as [Hs Hv]. apply andb_prop in Hs as [Hin Hidx].
  exists c. repeat split; auto.
  - now apply includes_char.
  - now apply Z.eqb_eq.
  - now apply Z.eqb_eq.
Qed.

Lemma alphabet_digit c :
  in_alphabet c ->
  0 <= digitValue c < 62
  /\ indexOf BASE62_ALPHABET (String c EmptyString) = digitValue c
  /\ symbol (digitValue c) = String c EmptyString.
Proof.
  unfold in_alphabet. simpl.
  intros Hin.
  repeat (destruct Hin as [<-|Hin]; [vm_compute; intuition congruence|]).
  contradiction.
Qed.

Lemma symbols_app ds1 ds2 : symbols (ds1 ++ ds2) = symbols ds1 ++ symbols ds2.
Proof.
  induction ds1 as [|d ds1 IH]; simpl; [reflexivity|].
  rewrite IH. unfold symbol. reflexivity.
Qed.

Lemma horner_app r ds1 ds2 : horner r (ds1 ++ ds2) = horner (horner r ds1) ds2.
Proof. unfold horner. apply fold_left_app. Qed.

(** On the safe integers the rounded quotient is the integer quotient. *)
Lemma Zdiv_bounds num :
  0 < num ->
  (inject_Z (num / 62) <= inject_Z num / inject_Z 62)%Q
  /\ (num mod 62 <> 0 ->
      (inject_Z (num / 62) + (1 # 62) <= inject_Z num / inject_Z 62
       <= inject_Z (num / 62) + (61 # 62))%Q)
  /\ (num mod 62 = 0 -> (inject_Z num / inject_Z 62 == inject_Z (num / 62))%Q).
Proof.
  intros Hn. pose proof (Z.div_mod num 62 ltac:(lia)) as Hdm.
  pose proof (Z.mod_pos_bound num 62 ltac:(lia)) as Hm.
  set (k := num / 62) in *. set (r := num mod 62) in *.
  assert (Hq : (inject_Z num / inject_Z 62
                == inject_Z k + inject_Z r / inject_Z 62)%Q).
  { rewrite Hdm at 1. rewrite inject_Z_plus, inject_Z_mult. field. }
  assert (Hr0 : (0 <= inject_Z r)%Q)
    by (change 0%Q with (inject_Z 0); rewrite <- Zle_Qle; lia).
  assert (Hr61 : (inject_Z r <= 61)%Q)
    by (change 61%Q with (inject_Z 61); rewrite <- Zle_Qle; lia).
  change (inject_Z 62) with 62%Q in *.
  split; [|split].
  - rewrite Hq, Qdiv_62. lra.
  - intros Hne.
    assert (Hr1 : (1 <= inject_Z r)%Q)
      by (change 1%Q with (inject_Z 1); rewrite <- Zle_Qle; lia).
    rewrite Hq, Qdiv_62. split; lra.
  - intros Hz. rewrite Hq, Hz, Qdiv_62. change (inject_Z 0) with 0%Q. lra.
Qed.

Lemma floor_quotient_exact num :
  0 < num < 2 ^ 53 -> floor_quotient num = num / BASE.
Proof.
  intros Hn. rewrite floor_quotient_eq. unfold BASE.
  destruct (Zdiv_bounds (proj1 Hn)) as (Hlo & Hmid & Hzero).
  assert (Hk : 0 <= num / 62 < 2 ^ 53).
  { split; [apply Z.div_pos; lia|].
    apply Z.le_lt_trans with (m := num); [|lia].
    apply Z.div_le_upper_bound; lia. }
  destruct (Z.eq_dec (num mod 62) 0) as [Hz|Hnz].
  - rewrite (round_to_double_Z Hk (Hzero Hz)). unfold NInt. apply Qfloor_Z.
  - specialize (Hmid Hnz). clear Hzero.
    set (a := (inject_Z num / inject_Z 62)%Q) in *.
    assert (Hk0 : (0 <= inject_Z (num / 62))%Q)
      by (change 0%Q with (inject_Z 0); rewrite <- Zle_Qle; lia).
    assert (Ha : (0 < a)%Q) by lra.
    assert (Ha48 : (a < Qpow2 48)%Q).
    { assert (Hn53 : (inject_Z num < inject_Z (2 ^ 53))%Q)
        by (rewrite <- Zlt_Qlt; lia).
      assert (E : (Qpow2 48 == inject_Z (2 ^ 53) * (1 # 32))%Q) by reflexivity.
      rewrite E. unfold a. change (inject_Z 62) with 62%Q. rewrite Qdiv_62.
      assert (0 < inject_Z num)%Q
        by (change 0%Q with (inject_Z 0); rewrite <- Zlt_Qlt; lia).
      lra. }
    rewrite (round_to_double_pos Ha). cbv zeta.
    pose proof (round_error Ha) as Herr. cbv zeta in Herr.
    rewrite !Qdiv_2 in Herr.
    set (e := ulp_exponent a) in *.
    set (r := (inject_Z (round_half_even (a / Qpow2 e)) * Qpow2 e)%Q) in *.
    assert (He : (Qpow2 e <= 1 # 32)%Q).
    { assert (He5 : e <= -5).
      { destruct (ulp_exponent_lower Ha) as [He|He]; fold e in He; [lia|].
        assert (H2 : (Qpow2 e < Qpow2 (-4))%Q).
        { assert (E : (Qpow2 48 == Qpow2 52 * Qpow2 (-4))%Q)
            by (rewrite <- Qpow2_add; reflexivity).
          pose proof (Qpow2_pos 52). pose proof (Qpow2_pos e).
          pose proof (Qpow2_pos (-4)).
          rewrite E in Ha48.
          set (A := Qpow2 52) in *. set (B := Qpow2 e) in *.
          set (B4 := Qpow2 (-4)) in *. nra. }
        apply Qpow2_lt_inv in H2. lia. }
      pose proof (Qpow2_le He5) as H5.
      assert (E5 : (Qpow2 (-5) == 1 # 32)%Q) by reflexivity.
      rewrite E5 in H5. exact H5. }
    assert (Hr : (inject_Z (num / 62) <= r)%Q
                 /\ (r < inject_Z (num / 62 + 1))%Q).
    { rewrite inject_Z_plus. change (inject_Z 1) with 1%Q.
      pose proof (Qpow2_pos e). split; lra. }
    destruct (Qle_bool (Qpow2 1024) r) eqn:Hov.
    + apply Qle_bool_iff in Hov.
      pose proof (@Qpow2_le 49 1024 ltac:(lia)) as H49.
      destruct Hr as [_ Hr]. rewrite inject_Z_plus in Hr.
      change (inject_Z 1) with 1%Q in Hr.
      assert (E48 : (Qpow2 48 == 281474976710656)%Q) by reflexivity.
      assert (E49 : (Qpow2 49 == 562949953421312)%Q) by reflexivity.
      rewrite E48 in Ha48. rewrite E49 in H49. lra.
    + rewrite (Qfloor_comp _ _ (Qred_correct r)).
      apply Qfloor_unique; tauto.
Qed.

(** One step of the decoding loop is exact while it stays below [2^53]. *)
Lemma accumulate_exact r d :
  0 <= r -> 0 <= d -> r * 62 + d < 2 ^ 53 ->
  Number_add (Number_mul (NInt r) (NInt BASE)) (NInt d) = NInt (r * 62 + d).
Proof.
  intros Hr Hd Hlt. unfold Number_mul, NInt at 1 2, BASE.
  rewrite (@round_to_double_Z _ (r * 62)); [| lia |].
  - unfold Number_add, NInt at 1 2. apply round_to_double_Z; [lia|].
    now rewrite inject_Z_plus.
  - now rewrite inject_Z_mult.
Qed.

Lemma horner_bounds ds r :
  0 <= r ->
  Forall (fun d => 0 <= d < 62) ds ->
  r * 62 ^ Z.of_nat (length ds) <= horner r ds
  < (r + 1) * 62 ^ Z.of_nat (length ds).
Proof.
  intros Hr Hall. revert r Hr.
  induction Hall as [|d ds Hd _ IH]; intros r Hr.
  - unfold horner. simpl. lia.
  - unfold horner. cbn [fold_left length]. fold (horner (r * 62 + d) ds).
    specialize (IH (r * 62 + d) ltac:(lia)).
    replace (Z.of_nat (S (length ds))) with (Z.succ (Z.of_nat (length ds)))
      by lia.
    rewrite Z.pow_succ_r by lia.
    assert (Hp : 0 < 62 ^ Z.of_nat (length ds)) by (apply Z.pow_pos_nonneg; lia).
    nia.
Qed.


Lemma horner_ge ds r :
  0 <= r -> Forall (fun d => 0 <= d < 62) ds -> r <= horner r ds.
Proof.
  intros Hr Hall. pose proof (horner_bounds Hr Hall) as [Hlo _].
  assert (Hp : 0 < 62 ^ Z.of_nat (length ds)) by (apply Z.pow_pos_nonneg; lia).
  nia.
Qed.


Lemma idToBase62_loop_zero result : idToBase62_loop 0 result = result.
Proof. funelim (idToBase62_loop 0 result); [lia | reflexivity]. Qed.

Lemma round_half_even_floor x : Qfloor x <= round_half_even x.
Proof.
  unfold round_half_even.
  destruct (x - inject_Z (Qfloor x) ?= 1 # 2)%Q; [|lia|lia].
  destruct (Z.even (Qfloor x)); lia.
Qed.

(** From [BASE] on, and on any double, the rounded quotient is at least 1. *)
Lemma floor_quotient_pos num :
  62 <= num < 2 ^ 1024 -> 1 <= floor_quotient num.
Proof.
  intros Hn. rewrite floor_quotient_eq.
  set (a := (inject_Z num / inject_Z 62)%Q).
  assert (HN : (62 <= inject_Z num)%Q)
    by (change 62%Q with (inject_Z 62); rewrite <- Zle_Qle; lia).
  assert (HN2 : (inject_Z num < Qpow2 1024)%Q)
    by (rewrite Qpow2_Z by lia; rewrite <- Zlt_Qlt; lia).
  assert (Ha : (1 <= a)%Q /\ (a * 62 == inject_Z num)%Q).
  { unfold a. change (inject_Z 62) with 62%Q. rewrite Qdiv_62.
    split; [lra | field]. }
  destruct Ha as [Ha Ha62].
  assert (Hpos : (0 < a)%Q) by lra.
  rewrite (round_to_double_pos Hpos). cbv zeta.
  pose proof (round_error Hpos) as Herr. cbv zeta in Herr.
  rewrite !Qdiv_2 in Herr.
  pose proof (round_half_even_floor (a / Qpow2 (ulp_exponent a))) as Hfl.
  pose proof (ulp_exponent_lower Hpos) as Hlow.
  set (e := ulp_exponent a) in *.
  set (m := round_half_even (a / Qpow2 e)) in *.
  pose proof (Qpow2_pos e) as HP.
  assert (E52 : (Qpow2 52 == 4503599627370496)%Q) by reflexivity.
  assert (HPa : (Qpow2 e <= a)%Q).
  { destruct Hlow as [He|He].
    - rewrite He. pose proof (@Qpow2_le (-1074) 0 ltac:(lia)) as H0.
      assert (E0 : (Qpow2 0 == 1)%Q) by reflexivity.
      rewrite E0 in H0. lra.
    - rewrite E52 in He. lra. }
  assert (Hr1 : (1 <= inject_Z m * Qpow2 e)%Q).
  { destruct (Z_le_gt_dec e 0) as [He0|He0].
    - assert (HK : (inject_Z (2 ^ (- e)) * Qpow2 e == 1)%Q).
      { rewrite <- Qpow2_Z by lia. rewrite <- Qpow2_add.
        replace (- e + e) with 0 by lia. reflexivity. }
      assert (Hx : (inject_Z (2 ^ (- e)) <= a / Qpow2 e)%Q).
      { apply Qle_shift_div_l; [exact HP|]. rewrite HK. exact Ha. }
      apply Qfloor_resp_le in Hx. rewrite Qfloor_Z in Hx.
      assert (Hm : (inject_Z (2 ^ (- e)) <= inject_Z m)%Q)
        by (rewrite <- Zle_Qle; lia).
      pose proof (Qmult_le_compat_r _ _ (Qpow2 e) Hm (Qlt_le_weak _ _ HP))
        as Hmul.
      rewrite HK in Hmul. exact Hmul.
    - destruct Hlow as [He|He]; [lia|].
      pose proof (@Qpow2_le 0 e ltac:(lia)) as H0.
      assert (E0 : (Qpow2 0 == 1)%Q) by reflexivity.
      rewrite E0 in H0. rewrite E52 in He. lra. }
  destruct (Qle_bool (Qpow2 1024) (inject_Z m * Qpow2 e)) eqn:Hov.
  - apply Qle_bool_iff in Hov. lra.
  - rewrite (Qfloor_comp _ _ (Qred_correct _)).
    apply Qfloor_resp_le in Hr1. exact Hr1.
Qed.

(** The first character of the code of a positive double is not ['0']. *)
Lemma idToBase62_loop_leading num result :
  0 < num < 2 ^ 1024 ->
  exists c rest,
    idToBase62_loop num result = String c rest /\ c <> "0"%char.
Proof.
  funelim (idToBase62_loop num result); intros Hnum; [|lia].
  clear Heq Heqcall.
  pose proof (@floor_quotient_half num ltac:(lia)) as Hhalf.
  destruct (Z.eq_dec (floor_quotient num) 0) as [Hz|Hnz].
  - rewrite Hz, idToBase62_loop_zero.
    assert (Hlt : num < 62).
    { destruct (Z_lt_ge_dec num 62) as [Hlt|Hge]; [exact Hlt|].
      pose proof (@floor_quotient_pos num ltac:(lia)). lia. }
    assert (Hrem : Z.rem num BASE = num)
      by (unfold BASE; rewrite Z.rem_mod_nonneg by lia;
          apply Z.mod_small; lia).
    rewrite Hrem.
    destruct (@digit_spec num ltac:(lia)) as (c & _ & -> & _ & _ & Hdv).
    exists c, result. split; [reflexivity|].
    intros ->. vm_compute in Hdv. lia.
  - apply H. split; [lia|].
    apply Z.le_lt_trans with (m := num / 2); [lia|].
    apply Z.div_lt_upper_bound; lia.
Qed.

(** The encoding loop prepends digit symbols to [result], at least one when
    [num] is positive. *)
Lemma idToBase62_loop_shape num result :
  exists ds,
    idToBase62_loop num result = symbols ds ++ result
    /\ Forall (fun d => 0 <= d < 62) ds
    /\ (0 < num -> ds <> []).
Proof.
  funelim (idToBase62_loop num result).
  - clear Heq Heqcall. destruct H as (ds & Hloop & Hrange & _).
    assert (Hrem : Z.rem num BASE = num mod 62)
      by (apply Z.rem_mod_nonneg; unfold BASE; lia).
    assert (Hd : 0 <= num mod 62 < 62) by (apply Z.mod_pos_bound; lia).
    destruct (digit_spec Hd) as (c & Hsym & Hchar & _).
    exists (ds ++ [num mod 62])%list. split; [|split].
    + rewrite Hloop, Hrem, Hchar, symbols_app. cbn [symbols]. rewrite Hsym.
      rewrite !string_app_assoc. reflexivity.
    + apply Forall_app. split; [assumption|].
      constructor; [assumption|constructor].
    + intros _ Hnil. apply app_eq_nil in Hnil as [_ Hnil]. discriminate.
  - exists []. split; [reflexivity|]. split; [constructor | lia].
Qed.

(** On the safe integers the encoding loop prepends the base-62 digits of
    [num] to [result]. *)
Lemma idToBase62_loop_digits num result :
  0 <= num < 2 ^ 53 ->
  exists ds,
    idToBase62_loop num result = symbols ds ++ result
    /\ Forall (fun d => 0 <= d < 62) ds
    /\ (forall r, horner r ds = r * 62 ^ Z.of_nat (length ds) + num)
    /\ (num = 0 -> ds = [])
    /\ (0 < num -> exists d ds', ds = d :: ds' /\ d <> 0).
Proof.
  funelim (idToBase62_loop num result); intros Hnum.
  - (* num > 0 *)
    clear Heq Heqcall.
    rewrite floor_quotient_exact in * by lia.
    assert (Hq : 0 <= num / BASE < 2 ^ 53).
    { split; [apply Z.div_pos; unfold BASE; lia|].
      apply Z.le_lt_trans with (m := num); [|lia].
      apply Z.div_le_upper_bound; unfold BASE; lia. }
    destruct (H Hq) as (ds & Hloop & Hrange & Hval & Hzero & Hlead).
    assert (Hrem : Z.rem num BASE = num mod 62)
      by (apply Z.rem_mod_nonneg; unfold BASE; lia).
    assert (Hd : 0 <= num mod 62 < 62) by (apply Z.mod_pos_bound; lia).
    destruct (digit_spec Hd) as (c & Hsym & Hchar & _).
    exists (ds ++ [num mod 62])%list. repeat split.
    + rewrite Hloop, Hrem, Hchar, symbols_app. cbn [symbols]. rewrite Hsym.
      rewrite !string_app_assoc. reflexivity.
    + apply Forall_app. split; [assumption|]. constructor; [assumption|constructor].
    + intros r. rewrite horner_app, Hval. unfold horner at 1. simpl.
      rewrite length_app. simpl.
      replace (Z.of_nat (length ds + 1)) with (Z.succ (Z.of_nat (length ds))) by lia.
      rewrite Z.pow_succ_r by lia.
      unfold BASE in *. pose proof (Z.div_mod num 62 ltac:(lia)). lia.
    + lia.
    + intros _. destruct (Z.eq_dec (num / BASE) 0) as [Hz|Hnz].
      * rewrite (Hzero Hz). simpl. exists (num mod 62), []. split; [reflexivity|].
        unfold BASE in Hz. apply Z.div_small_iff in Hz; [|lia].
        rewrite Z.mod_small by lia. lia.
      * destruct Hlead as (d & ds' & -> & Hd0); [lia|].
        exists d, (ds' ++ [num mod 62])%list. split; [reflexivity|assumption].
  - (* num <= 0 *)
    exists []. repeat split; simpl; auto.
    + intros r. unfold horner. simpl. lia.
    + lia.
Qed.

Lemma validate_symbols ds :
  Forall (fun d => 0 <= d < 62) ds -> validate (symbols ds) = Return tt.
Proof.
  induction 1 as [|d ds Hd _ IH]; [reflexivity|].
  cbn [symbols]. destruct (digit_spec Hd) as (c & -> & _ & Hin & _).
  cbn [append validate].
  apply includes_char in Hin. rewrite Hin. exact IH.
Qed.

Lemma base62ToId_loop_symbols ds r :
  Forall (fun d => 0 <= d < 62) ds ->
  0 <= r -> horner r ds < 2 ^ 53 ->
  base62ToId_loop (symbols ds) (NInt r) = NInt (horner r ds).
Proof.
  intros Hall. revert r.
  induction Hall as [|d ds Hd Hds IH]; intros r Hr Hlt; [reflexivity|].
  cbn [symbols]. destruct (digit_spec Hd) as (c & -> & _ & _ & Hidx & _).
  cbn [append base62ToId_loop]. rewrite Hidx.
  unfold horner in Hlt |- *. cbn [fold_left] in Hlt |- *.
  fold (horner (r * 62 + d) ds) in Hlt |- *.
  pose proof (@horner_ge ds (r * 62 + d) ltac:(lia) Hds).
  rewrite accumulate_exact by lia.
  apply IH; lia.
Qed.

(** A string over the alphabet is the numeral of its digit values. *)
Lemma alphabet_symbols s :
  (forall c, In c (list_ascii_of_string s) -> in_alphabet c) ->
  symbols (map digitValue (list_ascii_of_string s)) = s
  /\ Forall (fun x => 0 <= x < 62) (map digitValue (list_ascii_of_string s)).
Proof.
  induction s as [|a s IH]; intros Hall; [split; [reflexivity | constructor]|].
  destruct (alphabet_digit (Hall a (or_introl eq_refl))) as (Hrange & _ & Hsym).
  destruct IH as [IH1 IH2]; [intros c Hc; apply Hall; simpl; auto|].
  cbn [list_ascii_of_string map symbols]. rewrite Hsym, IH1.
  split; [reflexivity | constructor; assumption].
Qed.

Lemma idToBase62_VInt n :
  0 <= n ->
  idToBase62 (VInt n)
  = Return (if n =? 0 then "0" else idToBase62_loop n "").
Proof.
  intros Hn. unfold idToBase62, VInt, Number_toZ. rewrite Qfloor_Z.
  unfold Number_isInteger, Number_isNegative, inject_Z. cbn [Qnum Qden].
  rewrite Z.mod_1_r.
  destruct (n <? 0) eqn:Hneg; [apply Z.ltb_lt in Hneg; lia|].
  cbn [Z.eqb negb orb]. destruct (n =? 0); reflexivity.
Qed.
End CodecFacts.

Section CodecSpec.
Import Base62.

Lemma Number_isInteger_spec v : Number_isInteger v = true <-> is_integer v.
Proof.
  unfold is_integer. split.
  - destruct v as [| | |[q| |]| | |]; simpl; try discriminate.
    intros Hmod. apply Z.eqb_eq in Hmod.
    exists q, (Qnum q / Zpos (Qden q)). split; [reflexivity|].
    unfold Qeq, inject_Z. cbn [Qnum Qden].
    pose proof (Z.div_mod (Qnum q) (Zpos (Qden q)) ltac:(lia)). lia.
  - intros (q & z & -> & Heq). simpl. apply Z.eqb_eq.
    unfold Qeq, inject_Z in Heq. cbn [Qnum Qden] in Heq.
    replace (Qnum q) with (z * Zpos (Qden q)) by lia.
    apply Z.mod_mul. lia.
Qed.

Lemma Number_isNegative_spec v : Number_isNegative v = true <-> is_negative v.
Proof.
  unfold is_negative. split.
  - destruct v as [| | |[q| |[|]]| | |]; simpl; try discriminate.
    + intros Hlt. apply Z.ltb_lt in Hlt. left. exists q. split; [reflexivity|].
      unfold Qlt. simpl. lia.
    + intros _. right. reflexivity.
  - intros [(q & -> & Hlt) | ->]; simpl; [|reflexivity].
    apply Z.ltb_lt. unfold Qlt in Hlt. simpl in Hlt. lia.
Qed.

Lemma validate_ok s :
  (forall c, In c (list_ascii_of_string s) -> in_alphabet c) ->
  validate s = Return tt.
Proof.
  induction s as [|a s IH]; intros Hall; [reflexivity|].
  cbn [validate].
  assert (Ha : in_alphabet a) by (apply Hall; simpl; auto).
  apply includes_char in Ha. rewrite Ha. cbn [negb].
  apply IH. intros c Hc. apply Hall. simpl. auto.
Qed.

Lemma validate_bad s c :
  In c (list_ascii_of_string s) -> ~ in_alphabet c ->
  exists bad,
    In bad (list_ascii_of_string s) /\ ~ in_alphabet bad
    /\ validate s
       = Throw (Error ("Invalid Base62 character: " ++ String bad EmptyString)).
Proof.
  induction s as [|a s IH]; intros Hin Hbad; [contradiction|].
  cbn [validate].
  destruct (includes BASE62_ALPHABET (String a EmptyString)) eqn:Ha.
  - cbn [negb]. destruct Hin as [->|Hin].
    + apply includes_char in Ha. contradiction.
    + destruct (IH Hin Hbad) as (bad & Hb1 & Hb2 & Hb3).
      exists bad. repeat split; simpl; auto.
  - cbn [negb]. exists a. repeat split; simpl; auto.
    intros Hina. apply includes_char in Hina. congruence.
Qed.

(** The accumulation of the decoder, on the digit values. *)
Lemma base62ToId_loop_fold s r :
  (forall c, In c (list_ascii_of_string s) -> in_alphabet c) ->
  base62ToId_loop s r
  = fold_left (fun result c =>
                 Number_add (Number_mul result (NInt 62))
                   (NInt (digitValue c)))
              (list_ascii_of_string s) r.
Proof.
  revert r. induction s as [|a s IH]; intros r Hall; [reflexivity|].
  cbn [base62ToId_loop list_ascii_of_string fold_left].
  destruct (alphabet_digit (Hall a (or_introl eq_refl))) as (_ & -> & _).
  apply IH. intros c Hc. apply Hall. simpl. auto.
Qed.

Lemma exact_fold_horner l r :
  fold_left (fun result c => result * 62 + digitValue c) l r
  = horner r (map digitValue l).
Proof.
  revert r. induction l as [|c l IH]; intros r; [reflexivity|].
  cbn [fold_left map]. rewrite IH. reflexivity.
Qed.

(** It is the exact value as long as that is a safe integer. *)
Lemma base62ToId_loop_exact s :
  (forall c, In c (list_ascii_of_string s) -> in_alphabet c) ->
  fold_left (fun result c => result * 62 + digitValue c)
    (list_ascii_of_string s) 0 <= 2 ^ 53 - 1 ->
  base62ToId_loop s (NInt 0)
  = NInt (fold_left (fun result c => result * 62 + digitValue c)
            (list_ascii_of_string s) 0).
Proof.
  intros Hall Hsafe. rewrite exact_fold_horner in *.
  destruct (alphabet_symbols _ Hall) as [Hsym Hr].
  rewrite <- Hsym at 1. apply base62ToId_loop_symbols; [exact Hr | lia | lia].
Qed.

(** C1, amended.  For every safe integer [n], from 0 to [2^53 - 1],
    decoding the code that [idToBase62] produces for [n] succeeds and gives
    back [n]: [base62ToId(idToBase62(n)) = n]. *)
Theorem base62_roundtrip (n : Z) :
  0 <= n <= 2 ^ 53 - 1 ->
  exists code,
    idToBase62 (VInt n) = Return code
    /\ base62ToId (VStr code) = Return (NInt n).
Proof.
  intros Hn. rewrite idToBase62_VInt by lia.
  destruct (n =? 0) eqn:Hz.
  - apply Z.eqb_eq in Hz. subst n. exists "0". split; reflexivity.
  - apply Z.eqb_neq in Hz.
    destruct (@idToBase62_loop_digits n "" ltac:(lia))
      as (ds & Hloop & Hrange & Hval & _ & Hlead).
    destruct Hlead as (d & ds' & -> & Hd); [lia|].
    rewrite string_app_nil_r in Hloop.
    exists (idToBase62_loop n ""). split; [reflexivity|].
    rewrite Hloop. unfold base62ToId.
    assert (Hv : horner 0 (d :: ds') = n) by (rewrite Hval; lia).
    rewrite (validate_symbols Hrange).
    rewrite (base62ToId_loop_symbols Hrange) by lia. rewrite Hv.
    cbn [symbols]. unfold symbol at 1. cbn [append String.length Nat.eqb].
    reflexivity.
Qed.

(** C7, amended.  [idToBase62] is base-62 positional notation, most
    significant digit first, over the alphabet ordered digits, lowercase,
    uppercase: it maps 0, 61 and 62 to ["0"], ["Z"] and ["10"]; the
    character at position [d] of the alphabet is the symbol of [d]; for a
    safe integer [n > 0] the output spells digits [d :: ds] whose positional
    value is [n], with [d <> 0]; and for every positive double [n] its first
    character is not ['0']. *)
Theorem idToBase62_positional :
  idToBase62 (VInt 0) = Return "0"
  /\ idToBase62 (VInt 61) = Return "Z"
  /\ idToBase62 (VInt 62) = Return "10"
  /\ (forall d, 0 <= d < 62 -> charAt BASE62_ALPHABET d = symbol d)
  /\ (forall n, 0 < n <= 2 ^ 53 - 1 ->
      exists d ds c rest,
        idToBase62 (VInt n) = Return (symbols (d :: ds))
        /\ Forall (fun x => 0 <= x < 62) (d :: ds)
        /\ horner 0 (d :: ds) = n
        /\ d <> 0
        /\ symbols (d :: ds) = String c rest
        /\ c <> "0"%char)
  /\ (forall n, 0 < n < 2 ^ 1024 ->
      exists c rest,
        idToBase62 (VInt n) = Return (String c rest) /\ c <> "0"%char).
Proof.
  split; [vm_compute; reflexivity|]. split; [vm_compute; reflexivity|].
  split; [vm_compute; reflexivity|]. split; [|split].
  - intros d Hd. destruct (digit_spec Hd) as (c & -> & -> & _). reflexivity.
  - intros n Hn. rewrite idToBase62_VInt by lia.
    destruct (n =? 0) eqn:Hz; [apply Z.eqb_eq in Hz; lia|].
    destruct (@idToBase62_loop_digits n "" ltac:(lia))
      as (ds0 & Hloop & Hrange & Hval & _ & Hlead).
    destruct (Hlead ltac:(lia)) as (d & ds & -> & Hd).
    rewrite string_app_nil_r in Hloop.
    pose proof (Forall_inv Hrange) as Hdr. cbn beta in Hdr.
    destruct (digit_spec Hdr) as (c & Hsym & _ & _ & _ & Hdv).
    exists d, ds, c, (symbols ds).
    split; [now rewrite Hloop|]. split; [exact Hrange|].
    split; [rewrite Hval; lia|]. split; [exact Hd|]. split.
    + cbn [symbols]. rewrite Hsym. reflexivity.
    + intros ->. apply Hd. rewrite <- Hdv. reflexivity.
  - intros n Hn. rewrite idToBase62_VInt by lia.
    destruct (n =? 0) eqn:Hz; [apply Z.eqb_eq in Hz; lia|].
    destruct (idToBase62_loop_leading "" Hn) as (c & rest & -> & Hc).
    eauto.
Qed.

(** C8, amended.  [base62ToId] throws on the empty string and on every
    string that contains a character outside the alphabet (naming such a
    character); on a non-empty string of alphabet characters it returns the
    value accumulated left to right by [result = result * 62 + digitValue]
    in double-precision arithmetic, which is the exact value whenever that
    is a safe integer. *)
Theorem base62ToId_spec :
  base62ToId (VStr "") = Throw (Error "Input must be a non-empty string")
  /\ (forall s c,
        In c (list_ascii_of_string s) -> ~ in_alphabet c ->
        exists bad,
          In bad (list_ascii_of_string s) /\ ~ in_alphabet bad
          /\ base62ToId (VStr s)
             = Throw (Error ("Invalid Base62 character: "
                             ++ String bad EmptyString)))
  /\ (forall s,
        s <> "" ->
        (forall c, In c (list_ascii_of_string s) -> in_alphabet c) ->
        base62ToId (VStr s)
        = Return (fold_left (fun result c =>
                               Number_add (Number_mul result (NInt 62))
                                 (NInt (digitValue c)))
                            (list_ascii_of_string s) (NInt 0))
        /\ (fold_left (fun result c => result * 62 + digitValue c)
              (list_ascii_of_string s) 0 <= 2 ^ 53 - 1 ->
            base62ToId (VStr s)
            = Return (NInt (fold_left (fun result c =>
                                         result * 62 + digitValue c)
                                      (list_ascii_of_string s) 0)))).
Proof.
  split; [reflexivity|]. split.
  - intros s c Hin Hbad.
    destruct (validate_bad s Hin Hbad) as (bad & Hb1 & Hb2 & Hb3).
    exists bad. repeat split; auto.
    unfold base62ToId. destruct s as [|a s]; [contradiction|].
    cbn [String.length Nat.eqb]. rewrite Hb3. reflexivity.
  - intros s Hne Hall. unfold base62ToId.
    destruct s as [|a s]; [congruence|].
    cbn [String.length Nat.eqb].
    rewrite (validate_ok _ Hall). split.
    + now rewrite (base62ToId_loop_fold _ (NInt 0) Hall).
    + intros Hsafe. now rewrite (base62ToId_loop_exact _ Hall Hsafe).
Qed.

(** C10. Arguments outside the documented domain are rejected by throwing:
    [idToBase62] throws for every negative number and for every argument
    that is not an integer (strings among them), and [base62ToId] throws for
    every argument that is not a string. *)
Theorem codec_rejects_foreign_arguments :
  (forall v, is_negative v \/ ~ is_integer v ->
             idToBase62 v = Throw (Error "ID must be a positive integer"))
  /\ (forall s, idToBase62 (VStr s)
                = Throw (Error "ID must be a positive integer"))
  /\ (forall v, (forall s, v <> VStr s) ->
                base62ToId v = Throw (Error "Input must be a non-empty string")).
Proof.
  repeat split.
  - intros v [Hneg|Hint]; unfold idToBase62.
    + apply Number_isNegative_spec in Hneg. rewrite Hneg, orb_true_r. reflexivity.
    + destruct (Number_isInteger v) eqn:Hi; [|reflexivity].
      apply Number_isInteger_spec in Hi. contradiction.
  - intros v Hv. destruct v; try reflexivity. now destruct (Hv s).
Qed.
End CodecSpec.

Lemma base62_roundtrip_witness :
  0 <= 9007199254740991 <= 2 ^ 53 - 1
  /\ exists code,
       Base62.idToBase62 (VInt 9007199254740991) = Return code
       /\ Base62.base62ToId (VStr code) = Return (NInt 9007199254740991).
Proof.
  split; [lia | apply (@base62_roundtrip 9007199254740991); lia].
Defined.

(** C1 as stated fails: [2^54 + 52] is a double and an integer, its code
    is ["1kvnArUVj6"], and that code decodes to another number, the
    accumulation having been rounded on the way. *)
Lemma base62_roundtrip_fails_beyond_safe_integers :
  round_to_double (inject_Z (2 ^ 54 + 52)) = NInt (2 ^ 54 + 52)
  /\ Base62.idToBase62 (VInt (2 ^ 54 + 52)) = Return "1kvnArUVj6"
  /\ Base62.base62ToId (VStr "1kvnArUVj6") = Return (NInt 18014398509482040)
  /\ 18014398509482040 <> 2 ^ 54 + 52.
Proof.
  split; [vm_compute; reflexivity|]. split; [vm_compute; reflexivity|].
  split; [vm_compute; reflexivity | lia].
Qed.

Lemma idToBase62_positional_witness :
  0 < 1234567890 <= 2 ^ 53 - 1
  /\ (exists d ds c rest,
        Base62.idToBase62 (VInt 1234567890) = Return (symbols (d :: ds))
        /\ Forall (fun x => 0 <= x < 62) (d :: ds)
        /\ horner 0 (d :: ds) = 1234567890
        /\ d <> 0
        /\ symbols (d :: ds) = String c rest
        /\ c <> "0"%char)
  /\ 0 < 2 ^ 63 < 2 ^ 1024
  /\ (exists c rest,
        Base62.idToBase62 (VInt (2 ^ 63)) = Return (String c rest)
        /\ c <> "0"%char).
Proof.
  assert (H1 : 0 < 1234567890 <= 2 ^ 53 - 1) by lia.
  assert (H2 : 0 < 2 ^ 63 < 2 ^ 1024)
    by (split; [lia | apply Z.pow_lt_mono_r; lia]).
  split; [exact H1|]. split.
  - exact (proj1 (proj2 (proj2 (proj2 (proj2 idToBase62_positional))))
             1234567890 H1).
  - split; [exact H2|].
    exact (proj2 (proj2 (proj2 (proj2 (proj2 idToBase62_positional))))
             (2 ^ 63) H2).
Defined.

(** C7 as stated fails: [2^63] is a double, and the digits of its code
    ["aZl8N0y58I8"] do not have the positional value [2^63]: a quotient was
    rounded on the way. *)
Lemma idToBase62_not_positional_beyond_safe_integers :
  round_to_double (inject_Z (2 ^ 63)) = NInt (2 ^ 63)
  /\ Base62.idToBase62 (VInt (2 ^ 63)) = Return "aZl8N0y58I8"
  /\ fold_left (fun result c => result * 62 + digitValue c)
       (list_ascii_of_string "aZl8N0y58I8") 0 <> 2 ^ 63.
Proof.
  split; [vm_compute; reflexivity|]. split; [vm_compute; reflexivity|].
  vm_compute. discriminate.
Qed.

Lemma base62ToId_spec_witness :
  "1ly7vk" <> ""
  /\ (forall c, In c (list_ascii_of_string "1ly7vk") -> in_alphabet c)
  /\ fold_left (fun result c => result * 62 + digitValue c)
       (list_ascii_of_string "1ly7vk") 0 <= 2 ^ 53 - 1
  /\ Base62.base62ToId (VStr "1ly7vk")
     = Return (fold_left (fun result c =>
                            Number_add (Number_mul result (NInt 62))
                              (NInt (digitValue c)))
                         (list_ascii_of_string "1ly7vk") (NInt 0))
  /\ Base62.base62ToId (VStr "1ly7vk")
     = Return (NInt (fold_left (fun result c => result * 62 + digitValue c)
                               (list_ascii_of_string "1ly7vk") 0)).
Proof.
  assert (H1 : "1ly7vk" <> "") by discriminate.
  assert (H2 : forall c, In c (list_ascii_of_string "1ly7vk") -> in_alphabet c).
  { intros c Hc. simpl in Hc. unfold in_alphabet.
    repeat (destruct Hc as [<-|Hc]; [vm_compute; tauto|]). contradiction. }
  assert (H3 : fold_left (fun result c => result * 62 + digitValue c)
                 (list_ascii_of_string "1ly7vk") 0 <= 2 ^ 53 - 1)
    by (vm_compute; discriminate).
  split; [exact H1|]. split; [exact H2|]. split; [exact H3|].
  split.
  - exact (proj1 (proj2 (proj2 base62ToId_spec) "1ly7vk" H1 H2)).
  - exact (proj2 (proj2 (proj2 base62ToId_spec) "1ly7vk" H1 H2) H3).
Defined.

(** C8 as stated fails: the exact accumulation over ["ZZZZZZZZZ"] is
    [62^9 - 1], and [base62ToId] returns [62^9]. *)
Lemma base62ToId_rounds_beyond_safe_integers :
  fold_left (fun result c => result * 62 + digitValue c)
    (list_ascii_of_string "ZZZZZZZZZ") 0 = 13537086546263551
  /\ Base62.base62ToId (VStr "ZZZZZZZZZ") = Return (NInt 13537086546263552).
Proof. split; vm_compute; reflexivity. Qed.

Lemma codec_rejects_foreign_arguments_witness :
  Base62.idToBase62 (VInt (-1)) = Throw (Error "ID must be a positive integer")
  /\ Base62.idToBase62 (VNum (Finite (3 # 2)))
     = Throw (Error "ID must be a positive integer")
  /\ Base62.base62ToId (VInt 123)
     = Throw (Error "Input must be a non-empty string").
Proof.
  destruct codec_rejects_foreign_arguments as (Hneg & _ & Hstr).
  split; [|split].
  - apply Hneg. left. left. exists (inject_Z (-1)). split; [reflexivity|].
    unfold Qlt. simpl. lia.
  - apply Hneg. right. intros (q & z & Heq & Hq).
    injection Heq as <-. unfold Qeq in Hq. simpl in Hq. lia.
  - apply Hstr. intros s. discriminate.
Defined.

(** * The services do not depend on the cache for their results

    Runs of a service over the same store and clock, with any two cache
    clients, are compared by a simulation: related worlds agree on the store
    and the clock and say nothing of the caches. *)

Section CacheSafe.
Context {D C : Type} {cache : CacheClient C}.

(** A guarded, wrapped cache write returns normally and leaves store and
    clock alone, whatever the cache does. *)
Lemma warm_cache_safe key v (w : world D C) :
  fst (warm_cache key v w) = Return tt
  /\ db_state (snd (warm_cache key v w)) = db_state w
  /\ clock (snd (warm_cache key v w)) = clock w.
Proof.
  unfold warm_cache, try_catch, bind, cache_ready, on_cache, ret. simpl.
  destruct (cache_isReady (cache_state w)); simpl; [|auto].
  destruct (cache_set key v config.redis_ttl (cache_state w)) as [[a|e] c1];
    simpl; auto.
Qed.

Lemma evict_safe key (w : world D C) :
  fst (evict key w) = Return tt
  /\ db_state (snd (evict key w)) = db_state w
  /\ clock (snd (evict key w)) = clock w.
Proof.
  unfold evict, try_catch, bind, on_cache, ret. simpl.
  destruct (cache_del key (cache_state w)) as [[a|e] c1]; simpl; auto.
Qed.
End CacheSafe.

Section CacheIndependence.
Context {P : Platform} {D : Type} {db : Database D}.
Context {C C' : Type} (cache : CacheClient C) (cache' : CacheClient C').

Local Abbreviation simC := (sim (D := D) (C := C) (C' := C')).

Lemma sim_ret {A} (a : A) : simC (ret a) (ret a).
Proof. intros w w' Hr. simpl. auto. Qed.

Lemma sim_throw {A} (e : error) : simC (throw (A := A) e) (throw e).
Proof. intros w w' Hr. simpl. auto. Qed.

Lemma sim_lift {A} (o : outcome A) : simC (lift o) (lift o).
Proof. intros w w' Hr. simpl. auto. Qed.

Lemma sim_bind {A B} (m : M D C A) (m' : M D C' A)
  (k : A -> M D C B) (k' : A -> M D C' B) :
  simC m m' -> (forall a, simC (k a) (k' a)) -> simC (bind m k) (bind m' k').
Proof.
  intros Hm Hk w w' Hr. unfold bind.
  destruct (Hm w w' Hr) as [Ho Hs].
  destruct (m w) as [[a|e] w1], (m' w') as [[a'|e'] w1'];
    simpl in Ho, Hs; try discriminate.
  - injection Ho as <-. apply Hk, Hs.
  - injection Ho as <-. simpl. split; [reflexivity | assumption].
Qed.

Lemma sim_try_catch {A} (m : M D C A) (m' : M D C' A) h h' :
  simC m m' -> (forall e, simC (h e) (h' e)) ->
  simC (try_catch m h) (try_catch m' h').
Proof.
  intros Hm Hh w w' Hr. unfold try_catch.
  destruct (Hm w w' Hr) as [Ho Hs].
  destruct (m w) as [[a|e] w1], (m' w') as [[a'|e'] w1'];
    simpl in Ho, Hs; try discriminate.
  - simpl. split; assumption.
  - injection Ho as <-. apply Hh, Hs.
Qed.

Lemma sim_state_of_sim {A} (m : M D C A) (m' : M D C' A) :
  simC m m' -> sim_state m m'.
Proof. intros Hm w w' Hr. apply Hm, Hr. Qed.

Lemma sim_detach {A B} (m : M D C A) (m' : M D C' B) :
  sim_state m m' -> simC (detach m) (detach m').
Proof. intros Hm w w' Hr. unfold detach. simpl. auto. Qed.

Lemma sim_query sql params : simC (query sql params) (query sql params).
Proof.
  intros w w' [Hd Hc]. unfold query. rewrite Hd, Hc.
  destruct (db_query sql params (clock w') (db_state w')) as [r d].
  simpl. unfold related. simpl. auto.
Qed.

Lemma sim_Date_now : simC Date_now Date_now.
Proof. intros w w' [Hd Hc]. unfold Date_now. simpl. rewrite Hc. split; [reflexivity|split; auto]. Qed.

Lemma sim_get_rows r : simC (get_rows r) (get_rows r).
Proof. unfold get_rows. destruct (rows r); [apply sim_ret | apply sim_throw]. Qed.

Lemma sim_first_row_id r : simC (first_row_id r) (first_row_id r).
Proof.
  unfold first_row_id. apply sim_bind; [apply sim_get_rows|].
  intros [|x rs]; [apply sim_throw | apply sim_ret].
Qed.

Lemma sim_warm_cache key v :
  simC (warm_cache (cache := cache) key v) (warm_cache (cache := cache') key v).
Proof.
  intros w w' [Hd Hc].
  destruct (warm_cache_safe (cache := cache) key v w) as (-> & Hd1 & Hc1).
  destruct (warm_cache_safe (cache := cache') key v w') as (-> & Hd2 & Hc2).
  split; [reflexivity|]. split; congruence.
Qed.

Lemma sim_evict key :
  simC (evict (cache := cache) key) (evict (cache := cache') key).
Proof.
  intros w w' [Hd Hc].
  destruct (evict_safe (cache := cache) key w) as (-> & Hd1 & Hc1).
  destruct (evict_safe (cache := cache') key w') as (-> & Hd2 & Hc2).
  split; [reflexivity|]. split; congruence.
Qed.

Lemma sim_incrementClickCount code :
  simC (incrementClickCount code) (incrementClickCount code).
Proof.
  unfold incrementClickCount.
  apply sim_bind; [apply sim_query | intros _; apply sim_ret].
Qed.

Lemma sim_deleteExpiredUrl code :
  simC (deleteExpiredUrl (cache := cache) code)
      (deleteExpiredUrl (cache := cache') code).
Proof.
  unfold deleteExpiredUrl.
  apply sim_bind; [apply sim_query | intros _; apply sim_evict].
Qed.

Lemma sim_find_duplicate url exp :
  simC (find_duplicate url exp) (find_duplicate url exp).
Proof.
  unfold find_duplicate. destruct (negb (truthy exp)); [|apply sim_ret].
  apply sim_try_catch; [|intros _; apply sim_ret].
  apply sim_bind; [apply sim_query|]. intros existing.
  apply sim_bind; [apply sim_get_rows|].
  intros [|r rs]; apply sim_ret.
Qed.

(** The write path: outcome, store and clock are the same with any two
    cache clients. *)
Lemma sim_createShortUrl url exp :
  simC (createShortUrl (cache := cache) url exp)
      (createShortUrl (cache := cache') url exp).
Proof.
  unfold createShortUrl.
  destruct (negb (truthy url) || negb (typeof url =? "string")%string);
    [apply sim_throw|].
  destruct (negb (isURL _)); [apply sim_throw|].
  destruct (config.app_maxUrlLength <? _); [apply sim_throw|].
  apply sim_bind; [apply sim_find_duplicate|].
  intros [code|]; [apply sim_ret|].
  apply sim_bind; [apply sim_query|]. intros result.
  apply sim_bind; [apply sim_first_row_id|]. intros id_.
  apply sim_bind; [apply sim_lift|]. intros code.
  apply sim_bind; [apply sim_query|]. intros _.
  apply sim_bind; [apply sim_warm_cache|]. intros _.
  apply sim_ret.
Qed.

(** The store path of a read likewise. *)
Lemma sim_store_lookup code :
  simC (store_lookup (cache := cache) code)
      (store_lookup (cache := cache') code).
Proof.
  unfold store_lookup.
  apply sim_bind; [apply sim_query|]. intros result.
  apply sim_bind; [apply sim_get_rows|].
  intros [|r rs]; [apply sim_ret|].
  apply sim_bind; [apply sim_Date_now|]. intros now_.
  destruct (isExpired (expires_at r) now_).
  - apply sim_bind; [|intros _; apply sim_ret].
    apply sim_detach, sim_state_of_sim, sim_deleteExpiredUrl.
  - apply sim_bind; [apply sim_warm_cache|]. intros _.
    apply sim_bind; [|intros _; apply sim_ret].
    apply sim_detach, sim_state_of_sim, sim_incrementClickCount.
Qed.

(** Step 1 of the read path never throws and touches neither store nor
    clock; it yields the cached value exactly on a hit. *)
Lemma cache_lookup_cases key (w : world D C) :
  exists v c1,
    cache_lookup (cache := cache) key w
    = (Return v, {| db_state := db_state w; cache_state := c1;
                    clock := clock w |})
    /\ ((cache_hit key (cache_state w) v)
        \/ (cache_miss key (cache_state w) /\ truthy v = false)).
Proof.
  unfold cache_lookup, try_catch, bind, cache_ready, on_cache, ret,
    cache_hit, cache_miss.
  destruct w as [d c t]. simpl.
  destruct (cache_isReady c) eqn:Hready; simpl.
  - destruct (cache_get key c) as [[v|e] c1] eqn:Hget; simpl.
    + exists v, c1. split; [reflexivity|].
      destruct (truthy v) eqn:Hv.
      * left. eauto.
      * right. split; [|reflexivity].
        intros u (_ & (c' & Hu) & Htu). congruence.
    + exists VUndefined, c1. split; [reflexivity|]. right.
      split; [|reflexivity]. intros u (_ & (c' & Hu) & _). congruence.
  - exists VUndefined, c. split; [reflexivity|]. right.
    split; [|reflexivity]. intros u (Hr & _). congruence.
Qed.

Lemma cache_lookup_miss key (w : world D C) :
  cache_miss key (cache_state w) ->
  exists v w1,
    cache_lookup (cache := cache) key w = (Return v, w1)
    /\ truthy v = false
    /\ db_state w1 = db_state w /\ clock w1 = clock w.
Proof.
  intros Hmiss.
  destruct (cache_lookup_cases key w) as (v & c1 & Heq & [Hhit|[_ Hv]]).
  - destruct (Hmiss v Hhit).
  - eexists v, _. split; [exact Heq|]. simpl. auto.
Qed.

Lemma cache_lookup_hit key (w : world D C) u :
  cache_hit key (cache_state w) u ->
  exists w1,
    cache_lookup (cache := cache) key w = (Return u, w1)
    /\ db_state w1 = db_state w /\ clock w1 = clock w.
Proof.
  intros Hhit.
  destruct (cache_lookup_cases key w) as (v & c1 & Heq & Hcase).
  assert (v = u) as ->.
  { destruct Hhit as (Hr & (c' & Hget) & Hu).
    destruct Hcase as [(_ & (c'' & Hget') & _)|[Hmiss _]].
    - congruence.
    - destruct (Hmiss u). repeat split; eauto. }
  eexists. split; [exact Heq|]. simpl. auto.
Qed.
End CacheIndependence.

(** C6. No cache failure is surfaced by the write or the read path.  With any
    cache client whatever, failing or not, [createShortUrl] has the outcome
    and the effect on the store that it has without a cache; when [cache.get]
    throws, [getOriginalUrl] has the outcome and the effect on the store of
    the store lookup run without a cache; and so it has on every other miss,
    whatever the cache write that warms the cache does. *)
Theorem cache_failures_never_surface
  {P : Platform} {D C : Type} {db : Database D} (cache : CacheClient C)
  (w : world D C) :
  (forall url exp,
      same_result (createShortUrl (cache := cache) url exp w)
                  (createShortUrl (cache := NoCache) url exp (without_cache w)))
  /\ (forall code e c',
        cache_isReady (cache_state w) = true ->
        cache_get code (cache_state w) = (Throw e, c') ->
        same_result (getOriginalUrl (cache := cache) code w)
                    (store_lookup (cache := NoCache) code (without_cache w)))
  /\ (forall code,
        cache_miss code (cache_state w) ->
        same_result (getOriginalUrl (cache := cache) code w)
                    (store_lookup (cache := NoCache) code (without_cache w))).
Proof.
  assert (Hmiss : forall code,
             cache_miss code (cache_state w) ->
             same_result (getOriginalUrl (cache := cache) code w)
               (store_lookup (cache := NoCache) code (without_cache w))).
  { intros code Hm.
    destruct (cache_lookup_miss w Hm) as (v & w1 & Hl & Hv & Hd & Hc).
    unfold getOriginalUrl, bind. rewrite Hl, Hv.
    assert (Hrel : related w1 (without_cache w)) by (split; simpl; assumption).
    destruct (sim_store_lookup cache NoCache code Hrel) as (Ho & Hd' & Hc').
    repeat split; assumption. }
  split; [|split].
  - intros url exp.
    assert (Hrel : related w (without_cache w)) by (split; reflexivity).
    destruct (sim_createShortUrl cache NoCache url exp Hrel) as (Ho & Hd' & Hc').
    repeat split; assumption.
  - intros code e c' Hready Hget. apply Hmiss.
    intros u (_ & (c'' & Hu) & _). congruence.
  - exact Hmiss.
Qed.

(** * The read path over the in-memory store *)

Ltac eval_includes :=
  repeat match goal with
    | |- context [includes ?s ?t] =>
        let b := eval vm_compute in (includes s t) in
        change (includes s t) with b
    end.

Section ReadPath.
Context {P : Platform} {C : Type} {cache : CacheClient C}.

Lemma isExpired_spec v now_ :
  isExpired v now_ = true <-> lies_in_past v now_.
Proof.
  unfold isExpired, lies_in_past, Date_lt. split.
  - intros H. apply andb_prop in H as [Ht Hlt]. split; [assumption|].
    destruct (newDate v) as [t|]; [|discriminate].
    exists t. split; [reflexivity|]. now apply Z.ltb_lt.
  - intros (Ht & t & Hd & Hlt). rewrite Ht, Hd. now apply Z.ltb_lt.
Qed.

Lemma find_first_record p m r :
  first_record p m r -> find p (JsMap.values m) = Some r.
Proof.
  intros (before & k & after & -> & Hp & Hb).
  unfold JsMap.values. rewrite map_app. simpl.
  induction Hb as [|[k' r'] before Hr' _ IH]; simpl.
  - now rewrite Hp.
  - simpl in Hr'. now rewrite Hr'.
Qed.

Lemma find_no_record p m :
  no_record p m -> find p (JsMap.values m) = None.
Proof.
  unfold no_record, JsMap.values.
  induction 1 as [|[k r] m Hr _ IH]; simpl; [reflexivity|].
  simpl in Hr. now rewrite Hr.
Qed.

Lemma mock_select_by_code code now_ st :
  mock_query SQL.select_by_code [code] now_ st
  = match find (has_code code) (JsMap.values (urls st)) with
    | Some entry =>
        (Return {| rows := Some [entry]; rowCount := VInt 1 |}, st)
    | None => (Return {| rows := Some []; rowCount := VInt 0 |}, st)
    end.
Proof. unfold mock_query. eval_includes. reflexivity. Qed.

(** What the store path answers, read off the first entry with the code. *)
Lemma store_lookup_mock code (w : world MockDb C) :
  fst (store_lookup code w)
  = match find (has_code code) (JsMap.values (urls (db_state w))) with
    | None => Return VNull
    | Some r =>
        if isExpired (expires_at r) (clock w) then Return VNull
        else Return (original_url r)
    end.
Proof.
  unfold store_lookup, bind at 1, query. cbn [db_query MockDatabase].
  rewrite mock_select_by_code.
  destruct (find _ _) as [r|]; [|reflexivity].
  cbn [bind get_rows rows ret Date_now clock].
  unfold bind at 1. cbn [get_rows rows ret]. unfold bind at 1.
  cbn [Date_now clock].
  destruct (isExpired (expires_at r) (clock w)); [reflexivity|].
  unfold bind at 1.
  match goal with |- context [warm_cache ?k ?v ?w0] =>
    pose proof (warm_cache_safe k v w0) as (Hw & _);
    destruct (warm_cache k v w0) as [o w2]
  end.
  simpl in Hw. subst o. reflexivity.
Qed.

(** C2, amended.  [getOriginalUrl] returns the cached URL when the cache
    client is ready and answers the lookup of the code with a non-empty
    value; in every other case, a miss, it returns null when the store has
    no entry with the code, null when the entry's [expires_at] is set and
    lies in the past, and the entry's [original_url] otherwise. *)
Theorem getOriginalUrl_decision (w : world MockDb C) (code : value) :
  (forall u, cache_hit code (cache_state w) u ->
             fst (getOriginalUrl code w) = Return u)
  /\ (cache_miss code (cache_state w) ->
      (no_record (has_code code) (urls (db_state w)) ->
       fst (getOriginalUrl code w) = Return VNull)
      /\ (forall r,
            first_record (has_code code) (urls (db_state w)) r ->
            (lies_in_past (expires_at r) (clock w) ->
             fst (getOriginalUrl code w) = Return VNull)
            /\ (~ lies_in_past (expires_at r) (clock w) ->
                fst (getOriginalUrl code w) = Return (original_url r)))).
Proof.
  split.
  - intros u Hhit.
    destruct (cache_lookup_hit w Hhit) as (w1 & Hl & _).
    unfold getOriginalUrl, bind at 1. rewrite Hl.
    destruct Hhit as (_ & _ & ->). reflexivity.
  - intros Hmiss.
    destruct (cache_lookup_miss w Hmiss) as (v & w1 & Hl & Hv & Hd & Hc).
    assert (Hget : fst (getOriginalUrl code w) = fst (store_lookup code w1)).
    { unfold getOriginalUrl, bind at 1. rewrite Hl, Hv. reflexivity. }
    rewrite Hget, store_lookup_mock, Hd, Hc. split.
    + intros Hnone. now rewrite (find_no_record Hnone).
    + intros r Hfirst. rewrite (find_first_record Hfirst). split.
      * intros Hpast. apply isExpired_spec in Hpast. now rewrite Hpast.
      * intros Hnot. destruct (isExpired (expires_at r) (clock w)) eqn:He;
          [|reflexivity].
        apply isExpired_spec in He. contradiction.
Qed.
End ReadPath.

Lemma cache_failures_never_surface_witness :
  let w := without_cache (store_of [entry 2 url_a VNull "2"] 3) in
  cache_isReady (CacheClient := FailingCache) (cache_state w) = true
  /\ cache_get (CacheClient := FailingCache) (VStr "2") (cache_state w)
     = (Throw (Error "ECONNREFUSED"), tt)
  /\ same_result
       (getOriginalUrl (P := examplePlatform) (cache := FailingCache)
          (VStr "2") w)
       (store_lookup (P := examplePlatform) (cache := NoCache)
          (VStr "2") (without_cache w)).
Proof.
  intros w.
  assert (H1 : cache_isReady (CacheClient := FailingCache) (cache_state w) = true)
    by reflexivity.
  assert (H2 : cache_get (CacheClient := FailingCache) (VStr "2") (cache_state w)
               = (Throw (Error "ECONNREFUSED"), tt)) by reflexivity.
  split; [exact H1|]. split; [exact H2|].
  exact (proj1 (proj2 (cache_failures_never_surface
                         (P := examplePlatform) FailingCache w))
           (VStr "2") (Error "ECONNREFUSED") tt H1 H2).
Defined.

(** C2 as stated fails: the cache holds the URL under the code, but its
    client is not ready; the lookup is skipped and, the store having no
    entry, the answer is null. *)
Lemma getOriginalUrl_skips_unready_cache :
  JsMap.get (VStr "1") (memoryCache (cache_state unconnected_world))
  = Some (VStr url_a)
  /\ fst (getOriginalUrl (VStr "1") unconnected_world) = Return VNull.
Proof. vm_compute. split; reflexivity. Qed.

Lemma getOriginalUrl_decision_witness :
  let w := store_of [entry 1 url_a (VDate (Some 500)) "1";
                     entry 2 url_a VNull "2"] 3 in
  cache_miss (VStr "2") (cache_state w)
  /\ first_record (has_code (VStr "2")) (urls (db_state w))
       (snd (entry 2 url_a VNull "2"))
  /\ ~ lies_in_past (P := examplePlatform) VNull (clock w)
  /\ fst (getOriginalUrl (P := examplePlatform) (VStr "2") w)
     = Return (VStr url_a).
Proof.
  intros w.
  assert (H1 : cache_miss (VStr "2") (cache_state w)).
  { intros u (_ & (c' & Hget) & Hu). injection Hget as <- _. discriminate. }
  assert (H2 : first_record (has_code (VStr "2")) (urls (db_state w))
                 (snd (entry 2 url_a VNull "2"))).
  { exists [entry 1 url_a (VDate (Some 500)) "1"], (VInt 2), [].
    split; [reflexivity|]. split; [reflexivity|].
    constructor; [reflexivity|constructor]. }
  assert (H3 : ~ lies_in_past (P := examplePlatform) VNull (clock w)).
  { intros (Ht & _). discriminate. }
  split; [exact H1|]. split; [exact H2|]. split; [exact H3|].
  exact (proj2 (proj2 (proj2 (getOriginalUrl_decision (P := examplePlatform)
                                w (VStr "2")) H1) _ H2) H3).
Defined.

(** * The write path *)

Section WritePath.
Context {P : Platform} {D C : Type} {db : Database D} {cache : CacheClient C}.

(** C4, amended.  Provided the validator accepts only URLs with an http or
    https scheme, [createShortUrl] rejects with a validation error, before
    touching store or cache, every input that is empty, is not a string,
    or whose trimmed form is longer than 2048 characters, lacks an http or
    https scheme, or fails the validator. *)
Theorem createShortUrl_rejects_invalid
  (Hscheme : forall s, isURL s = true -> has_http_scheme s = true)
  (url exp : value) (w : world D C) :
  url = VStr ""
  \/ (forall s, url <> VStr s)
  \/ (exists s, url = VStr s
                /\ (config.app_maxUrlLength < strlen (trim s)
                    \/ has_http_scheme (trim s) = false
                    \/ isURL (trim s) = false)) ->
  exists e,
    is_validation_error e /\ createShortUrl url exp w = (Throw e, w).
Proof.
  unfold is_validation_error.
  intros [-> | [Hns | (s & -> & Hbad)]].
  - eexists. split; [left; reflexivity | reflexivity].
  - exists (Error "URL is required"). split; [left; reflexivity|].
    unfold createShortUrl.
    destruct url; try (rewrite orb_true_r; reflexivity).
    now destruct (Hns s).
  - unfold createShortUrl. cbn [typeof String.eqb].
    destruct (truthy (VStr s)); cbn [negb orb];
      [|eexists; split; [left; reflexivity | reflexivity]].
    change ((if Ascii.eqb _ _ then _ else _)) with true.
    cbn [negb].
    destruct (isURL (trim s)) eqn:Hurl; cbn [negb].
    + destruct Hbad as [Hlen | [Hsch | Hinv]].
      * apply Z.ltb_lt in Hlen. rewrite Hlen.
        eexists; split; [right; right; reflexivity | reflexivity].
      * rewrite (Hscheme _ Hurl) in Hsch. discriminate.
      * discriminate.
    + eexists; split; [right; left; reflexivity | reflexivity].
Qed.

(** A failing deduplication lookup is swallowed: the block falls through
    to the insert. *)
Lemma find_duplicate_failure_swallowed url exp (w : world D C) e d :
  truthy exp = false ->
  db_query SQL.select_duplicate [VStr url] (clock w) (db_state w)
  = (Throw e, d) ->
  find_duplicate url exp w
  = (Return None,
     {| db_state := d; cache_state := cache_state w; clock := clock w |}).
Proof.
  intros Hexp Hq. unfold find_duplicate. rewrite Hexp. cbn [negb].
  unfold try_catch, bind at 1, query. rewrite Hq. reflexivity.
Qed.
End WritePath.

Lemma createShortUrl_rejects_invalid_witness :
  (forall s, isURL (Platform := examplePlatform) s = true ->
             has_http_scheme s = true)
  /\ has_http_scheme (trim "ftp://example.com/a") = false
  /\ exists e,
       is_validation_error e
       /\ createShortUrl (VStr "ftp://example.com/a") VUndefined fresh_world
          = (Throw e, fresh_world).
Proof.
  assert (H1 : forall s, isURL (Platform := examplePlatform) s = true ->
                         has_http_scheme s = true).
  { intros s Hs. simpl in Hs.
    apply andb_prop in Hs as [Hs _]. apply andb_prop in Hs as [Hs _].
    exact Hs. }
  assert (H2 : has_http_scheme (trim "ftp://example.com/a") = false)
    by reflexivity.
  split; [exact H1|]. split; [exact H2|].
  apply (createShortUrl_rejects_invalid H1).
  right. right. exists "ftp://example.com/a". split; [reflexivity|].
  right. left. exact H2.
Defined.

(** C4 as stated fails: an input longer than 2048 characters is accepted when
    trimming brings it under the limit. *)
Lemma createShortUrl_accepts_padded_url :
  2048 < strlen padded_url
  /\ fst (createShortUrl (VStr padded_url) VUndefined fresh_world)
     = Return {| shortCode := VStr "1";
                 shortUrl := "http://localhost:3000/1";
                 originalUrl := url_a;
                 isNew := true |}
  /\ ~ (exists e,
          createShortUrl (VStr padded_url) VUndefined fresh_world
          = (Throw e, fresh_world)).
Proof.
  split; [vm_compute; reflexivity|].
  assert (H : fst (createShortUrl (VStr padded_url) VUndefined fresh_world)
              = Return {| shortCode := VStr "1";
                          shortUrl := "http://localhost:3000/1";
                          originalUrl := url_a;
                          isNew := true |})
    by (vm_compute; reflexivity).
  split; [exact H|].
  intros (e & He). rewrite He in H. discriminate.
Qed.

(** ** Deduplication over the in-memory store *)

Section Deduplication.
Context {P : Platform} {C : Type} {cache : CacheClient C}.

(** The duplicate check of the in-memory store answers with the first
    entry that has the URL, whether or not that entry expires. *)
Lemma mock_select_duplicate url now_ st :
  mock_query SQL.select_duplicate [url] now_ st
  = match find (has_url url) (JsMap.values (urls st)) with
    | Some e =>
        (Return {| rows := Some [ {| id := VUndefined;
                                     original_url := VUndefined;
                                     expires_at := VUndefined;
                                     short_code := short_code e;
                                     click_count := VUndefined;
                                     created_at := VUndefined;
                                     now := VUndefined |} ];
                   rowCount := VUndefined |}, st)
    | None => (Return {| rows := Some []; rowCount := VUndefined |}, st)
    end.
Proof. unfold mock_query. eval_includes. reflexivity. Qed.

(** A request without expiry whose URL passes validation returns the code
    of the first entry with that URL, new nothing, and leaves the world as
    it was. *)
Lemma createShortUrl_duplicate s exp r (w : world MockDb C) :
  s <> "" -> isURL (trim s) = true ->
  strlen (trim s) <= config.app_maxUrlLength ->
  truthy exp = false ->
  first_record (has_url (VStr (trim s))) (urls (db_state w)) r ->
  createShortUrl (VStr s) exp w
  = (Return {| shortCode := short_code r;
               shortUrl := baseUrl ++ "/" ++ ToString (short_code r);
               originalUrl := trim s;
               isNew := false |}, w).
Proof.
  intros Hs Hurl Hlen Hexp Hfirst. unfold createShortUrl.
  assert (Ht : truthy (VStr s) = true).
  { simpl. destruct (String.eqb_spec s ""); [contradiction | reflexivity]. }
  rewrite Ht, Hurl. cbn [typeof negb orb].
  change (("string" =? "string")%string) with true. cbn [negb].
  destruct (config.app_maxUrlLength <? strlen (trim s)) eqn:Hl;
    [apply Z.ltb_lt in Hl; lia|].
  unfold bind at 1, find_duplicate. rewrite Hexp. cbn [negb].
  unfold try_catch, bind at 1, query. cbn [db_query MockDatabase].
  rewrite mock_select_duplicate, (find_first_record Hfirst).
  destruct w as [d c t]. reflexivity.
Qed.
End Deduplication.

(** C3 on the code.  The store holds a non-expiring entry for the URL, with
    code ["2"], behind an expiring entry for the same URL, with code ["1"]:
    the request without expiry is answered with ["1"], the code of the
    expiring entry. *)
Lemma createShortUrl_returns_expiring_code :
  let w := store_of [entry 1 url_a (VDate (Some 2000)) "1";
                     entry 2 url_a VNull "2"] 3 in
  createShortUrl (VStr url_a) VUndefined w
  = (Return {| shortCode := VStr "1";
               shortUrl := "http://localhost:3000/1";
               originalUrl := url_a;
               isNew := false |}, w).
Proof. vm_compute. reflexivity. Qed.

(** Creating the same URL twice on a fresh store: the in-memory store keeps
    nothing of the first request, and the second one is new again. *)
Lemma createShortUrl_twice_is_new_twice :
  let w1 := snd (createShortUrl (VStr url_a) VUndefined fresh_world) in
  urls (db_state w1) = []
  /\ fst (createShortUrl (VStr url_a) VUndefined w1)
     = Return {| shortCode := VStr "2";
                 shortUrl := "http://localhost:3000/2";
                 originalUrl := url_a;
                 isNew := true |}.
Proof. vm_compute. split; reflexivity. Qed.

(** With the duplicate check failing, the request goes on to the insert and
    is answered as a new URL, although the store holds the URL already. *)
Example createShortUrl_survives_failed_lookup :
  let w := store_of [entry 1 url_a VNull "1"] 2 in
  fst (createShortUrl (db := FlakyDatabase) (VStr url_a) VUndefined w)
  = Return {| shortCode := VStr "2";
              shortUrl := "http://localhost:3000/2";
              originalUrl := url_a;
              isNew := true |}.
Proof. vm_compute. reflexivity. Qed.

(** * Expiry on the write path: POST /api/shorten *)

Section ShortenRoute.
Context {P : Platform} {D C : Type} {db : Database D} {cache : CacheClient C}.

Lemma post_shorten_unparseable url exp (w : world D C) :
  truthy url = true -> truthy exp = true -> newDate exp = None ->
  post_shorten url exp w
  = ({| status := 400;
        body := JsonError "Invalid expires_at format. Use ISO 8601 format (e.g., 2024-12-31T23:59:59Z)" |},
     w).
Proof.
  intros Hu He Hd. unfold post_shorten, post_shorten_body.
  rewrite Hu, He, Hd. reflexivity.
Qed.

Lemma post_shorten_past url exp t (w : world D C) :
  truthy url = true -> truthy exp = true -> newDate exp = Some t ->
  t < clock w ->
  post_shorten url exp w
  = ({| status := 400; body := JsonError "expires_at must be in the future" |},
     w).
Proof.
  intros Hu He Hd Hlt. unfold post_shorten, post_shorten_body.
  rewrite Hu, He, Hd. cbn [negb]. unfold bind, Date_now, Date_lt.
  apply Z.ltb_lt in Hlt. rewrite Hlt. reflexivity.
Qed.

(** An expiry that is not before the clock reading, the reading itself
    included, passes the check and reaches [createShortUrl]. *)
Lemma post_shorten_not_past url exp t (w : world D C) :
  truthy url = true -> truthy exp = true -> newDate exp = Some t ->
  clock w <= t ->
  post_shorten url exp w
  = match createShortUrl url (VDate (Some t)) w with
    | (Return r, w') => ({| status := 201; body := JsonShortUrl r |}, w')
    | (Throw e, w') => ({| status := 400; body := JsonError (message e) |}, w')
    end.
Proof.
  intros Hu He Hd Hle. unfold post_shorten, post_shorten_body.
  rewrite Hu, He, Hd. cbn [negb]. unfold bind at 1, Date_now, Date_lt.
  assert (Hlt : (t <? clock w) = false) by (apply Z.ltb_ge; exact Hle).
  rewrite Hlt. unfold respond_created, bind.
  destruct (createShortUrl url (VDate (Some t)) w) as [[r|e] w']; reflexivity.
Qed.
End ShortenRoute.

(** C5 on the code.  The clock reads 1000 and the request asks for expiry at
    1000: the handler answers 201 and a short URL is created. *)
Lemma post_shorten_accepts_expiry_now :
  clock fresh_world = 1000
  /\ newDate (VInt 1000) = Some 1000
  /\ fst (post_shorten (VStr url_a) (VInt 1000) fresh_world)
     = {| status := 201;
          body := JsonShortUrl {| shortCode := VStr "1";
                                  shortUrl := "http://localhost:3000/1";
                                  originalUrl := url_a;
                                  isNew := true |} |}.
Proof. vm_compute. repeat split; reflexivity. Qed.

(** * Cleanup over the in-memory store *)

Section Cleanup.
Context {P : Platform} {C : Type} {cache : CacheClient C}.

(** None of the patterns the in-memory store looks for occurs in the
    statement [cleanupExpiredUrls] sends, whose [DELETE FROM urls] and
    [WHERE expires_at] are on two lines: the store answers with its default,
    no rows. *)
Lemma mock_delete_expired_unmatched params now_ st :
  mock_query SQL.delete_expired params now_ st
  = (Return {| rows := Some []; rowCount := VInt 0 |}, st).
Proof. unfold mock_query. eval_includes. reflexivity. Qed.

Lemma well_keyed_app_inv {V} (kept : JsMap.t V) k v rest :
  well_keyed (kept ++ (k, v) :: rest)%list ->
  Forall (fun kv => sameValueZero (fst kv) k = false) kept
  /\ sameValueZero k k = true
  /\ well_keyed (kept ++ rest)%list.
Proof.
  induction kept as [|[k' v'] kept IH]; simpl.
  - intros (Hk & _ & Hrest). auto.
  - intros (Hk' & Hall & Hw). destruct (IH Hw) as (Hkept & Hk & Hw').
    apply Forall_app in Hall as [Hall1 Hall2].
    split; [|split; [exact Hk|]].
    + constructor; [|exact Hkept]. simpl. exact (Forall_inv Hall2).
    + split; [exact Hk'|]. split; [|exact Hw'].
      apply Forall_app. split; [exact Hall1 | exact (Forall_inv_tail Hall2)].
Qed.

Lemma JsMap_delete_middle {V} (kept : JsMap.t V) k v rest :
  Forall (fun kv => sameValueZero (fst kv) k = false) kept ->
  sameValueZero k k = true ->
  JsMap.delete k (kept ++ (k, v) :: rest)%list = (kept ++ rest)%list.
Proof.
  intros Hkept Hk. induction Hkept as [|[k' v'] kept Hk' _ IH]; simpl.
  - now rewrite Hk.
  - simpl in Hk'. now rewrite Hk', IH.
Qed.

Lemma delete_expired_fold now_ (l kept : JsMap.t row) (acc : list row) :
  well_keyed (kept ++ l)%list ->
  fold_left
    (fun acc kv =>
       if isExpired (expires_at (snd kv)) now_
       then ((fst acc ++ [snd kv])%list, JsMap.delete (fst kv) (snd acc))
       else acc)
    l (acc, (kept ++ l)%list)
  = ((acc ++ map snd (filter (expired_entry now_) l))%list,
     (kept ++ filter (fun kv => negb (expired_entry now_ kv)) l)%list).
Proof.
  revert kept acc. induction l as [|[k r] l IH]; intros kept acc Hw; simpl.
  - rewrite !app_nil_r. reflexivity.
  - change (expired_entry now_ (k, r)) with (isExpired (expires_at r) now_).
    destruct (isExpired (expires_at r) now_); simpl.
    + destruct (well_keyed_app_inv kept k r l Hw) as (Hkept & Hk & Hw').
      rewrite (@JsMap_delete_middle _ kept k r l Hkept Hk), (IH kept _ Hw').
      now rewrite <- app_assoc.
    + replace (kept ++ (k, r) :: l)%list with ((kept ++ [(k, r)]) ++ l)%list
        by (now rewrite <- app_assoc).
      rewrite IH by (now rewrite <- app_assoc).
      now rewrite <- app_assoc.
Qed.

(** The branch of the store that deletes expired entries, once a statement
    reaches it: it removes exactly the expired entries and returns them. *)
Lemma delete_expired_spec now_ (m : JsMap.t row) :
  well_keyed m ->
  delete_expired now_ m
  = (map snd (filter (expired_entry now_) m),
     filter (fun kv => negb (expired_entry now_ kv)) m).
Proof.
  intros Hw. unfold delete_expired.
  exact (delete_expired_fold now_ m [] [] Hw).
Qed.

Lemma well_keyed_filter {V} (f : value * V -> bool) (m : JsMap.t V) :
  well_keyed m -> well_keyed (filter f m).
Proof.
  induction m as [|[k v] m IH]; simpl; [auto|].
  intros (Hk & Hall & Hw). destruct (f (k, v)); simpl; [|auto].
  split; [exact Hk|]. split; [|auto].
  apply Forall_forall. intros kv Hin. apply filter_In in Hin as [Hin _].
  rewrite Forall_forall in Hall. auto.
Qed.

(** Run again on what it left, that branch deletes nothing. *)
Lemma delete_expired_twice now_ (m : JsMap.t row) :
  well_keyed m ->
  delete_expired now_ (snd (delete_expired now_ m))
  = ([], snd (delete_expired now_ m)).
Proof.
  intros Hw. rewrite (delete_expired_spec now_ m Hw). simpl.
  rewrite delete_expired_spec by (now apply well_keyed_filter).
  assert (Hnone : forall l : JsMap.t row,
             filter (expired_entry now_)
               (filter (fun kv => negb (expired_entry now_ kv)) l) = []).
  { induction l as [|kv l IHl]; simpl; [reflexivity|].
    destruct (expired_entry now_ kv) eqn:He; simpl; [exact IHl|].
    now rewrite He. }
  assert (Hall : forall l : JsMap.t row,
             filter (fun kv => negb (expired_entry now_ kv))
               (filter (fun kv => negb (expired_entry now_ kv)) l)
             = filter (fun kv => negb (expired_entry now_ kv)) l).
  { induction l as [|kv l IHl]; simpl; [reflexivity|].
    destruct (expired_entry now_ kv) eqn:He; simpl; [exact IHl|].
    now rewrite He, IHl. }
  now rewrite Hnone, Hall.
Qed.

Lemma cleanupExpiredUrls_mock (w : world MockDb C) :
  cleanupExpiredUrls w = (Return (VInt 0), w).
Proof.
  unfold cleanupExpiredUrls, bind at 1, query. cbn [db_query MockDatabase].
  rewrite mock_delete_expired_unmatched. destruct w as [d c t]. reflexivity.
Qed.
End Cleanup.

(** C9 on the code.  The store holds one entry whose expiry, 500, is before
    the clock reading, 1000: [cleanupExpiredUrls] returns 0 and the entry is
    still there. *)
Lemma cleanupExpiredUrls_keeps_expired :
  let w := store_of [entry 1 url_a (VDate (Some 500)) "1"] 2 in
  isExpired (VDate (Some 500)) (clock w) = true
  /\ cleanupExpiredUrls w = (Return (VInt 0), w).
Proof. vm_compute. split; reflexivity. Qed.

(** The branch of the store that deletes expired entries does its work when a
    statement reaches it, here one written on a single line. *)
Lemma mock_delete_branch_when_reached :
  mock_query "DELETE FROM urls WHERE expires_at < NOW()" [] 1000
    {| urls := [entry 1 url_a (VDate (Some 500)) "1"; entry 2 url_a VNull "2"];
       currentId := 3 |}
  = (Return {| rows := Some [snd (entry 1 url_a (VDate (Some 500)) "1")];
               rowCount := VInt 1 |},
     {| urls := [entry 2 url_a VNull "2"]; currentId := 3 |}).
Proof. vm_compute. reflexivity. Qed.

(** The stores of the examples arise from the empty store by inserts sent
    through [db.query]. *)
Lemma example_stores_reachable :
  seed url_a VNull "2" (seed url_a (VDate (Some 2000)) "1" fresh_world)
  = store_of [entry 1 url_a (VDate (Some 2000)) "1"; entry 2 url_a VNull "2"] 3
  /\ seed url_a VNull "2" (seed url_a (VDate (Some 500)) "1" fresh_world)
     = store_of [entry 1 url_a (VDate (Some 500)) "1"; entry 2 url_a VNull "2"] 3
  /\ seed url_a (VDate (Some 500)) "1" fresh_world
     = store_of [entry 1 url_a (VDate (Some 500)) "1"] 2.
Proof. vm_compute. repeat split; reflexivity. Qed.

(** End to end on a fresh deployment: the code returned for a new URL
    redirects to it, served from the cache that the write warmed. *)
Example redirect_after_create :
  let w1 := snd (createShortUrl (VStr url_a) VUndefined fresh_world) in
  fst (getOriginalUrl (VStr "1") w1) = Return (VStr url_a).
Proof. vm_compute. reflexivity. Qed.

(** * Further properties of the codec *)

Section CodecMore.
Import Base62.

Lemma symbols_length ds : String.length (symbols ds) = length ds.
Proof. induction ds as [|d ds IH]; simpl; [reflexivity | now rewrite IH]. Qed.

Lemma symbols_chars ds c :
  Forall (fun d => 0 <= d < 62) ds ->
  In c (list_ascii_of_string (symbols ds)) -> in_alphabet c.
Proof.
  induction 1 as [|d ds Hd _ IH]; [contradiction|].
  cbn [symbols]. destruct (digit_spec Hd) as (a & -> & _ & Ha & _).
  cbn [append list_ascii_of_string]. intros [<-|Hin]; auto.
Qed.

(** The digits behind the code of a safe integer. *)
Lemma idToBase62_digits n :
  0 <= n <= 2 ^ 53 - 1 ->
  exists d ds,
    idToBase62 (VInt n) = Return (symbols (d :: ds))
    /\ Forall (fun x => 0 <= x < 62) (d :: ds)
    /\ horner 0 (d :: ds) = n
    /\ (0 < n -> d <> 0)
    /\ (n = 0 -> ds = []).
Proof.
  intros Hn. rewrite idToBase62_VInt by lia.
  destruct (n =? 0) eqn:Hz.
  - apply Z.eqb_eq in Hz. subst n. exists 0, [].
    split; [reflexivity|]. split; [constructor; [lia | constructor]|].
    split; [reflexivity|]. split; [lia | reflexivity].
  - apply Z.eqb_neq in Hz.
    destruct (@idToBase62_loop_digits n "" ltac:(lia))
      as (ds0 & Hloop & Hrange & Hval & _ & Hlead).
    destruct Hlead as (d & ds & -> & Hd); [lia|].
    rewrite string_app_nil_r in Hloop.
    exists d, ds. split; [now rewrite Hloop|]. split; [exact Hrange|].
    split; [rewrite Hval; lia|]. split; [auto | lia].
Qed.

(** X1. Two different safe integers never get the same code. *)
Theorem idToBase62_injective n m :
  0 <= n <= 2 ^ 53 - 1 -> 0 <= m <= 2 ^ 53 - 1 -> n <> m ->
  idToBase62 (VInt n) <> idToBase62 (VInt m).
Proof.
  intros Hn Hm Hne Heq. apply Hne.
  destruct (idToBase62_digits Hn) as (d1 & ds1 & He1 & Hr1 & Hv1 & _).
  destruct (idToBase62_digits Hm) as (d2 & ds2 & He2 & Hr2 & Hv2 & _).
  assert (Hs : symbols (d1 :: ds1) = symbols (d2 :: ds2))
    by (rewrite He1, He2 in Heq; congruence).
  assert (H1 : base62ToId_loop (symbols (d1 :: ds1)) (NInt 0) = NInt n)
    by (rewrite (base62ToId_loop_symbols Hr1) by lia; now rewrite Hv1).
  assert (H2 : base62ToId_loop (symbols (d2 :: ds2)) (NInt 0) = NInt m)
    by (rewrite (base62ToId_loop_symbols Hr2) by lia; now rewrite Hv2).
  rewrite Hs, H2 in H1. unfold NInt, inject_Z in H1. congruence.
Qed.

(** X2. The code of a non-negative id is never empty and consists of
    alphabet characters only. *)
Theorem idToBase62_alphabet n :
  0 <= n ->
  exists code,
    idToBase62 (VInt n) = Return code
    /\ code <> ""
    /\ forall c, In c (list_ascii_of_string code) -> in_alphabet c.
Proof.
  intros Hn. rewrite (idToBase62_VInt Hn).
  destruct (n =? 0) eqn:Hz.
  - exists "0". split; [reflexivity|]. split; [discriminate|].
    intros c [<-|[]]. vm_compute. tauto.
  - apply Z.eqb_neq in Hz.
    destruct (idToBase62_loop_shape n "") as (ds & Hloop & Hr & Hne).
    rewrite string_app_nil_r in Hloop.
    exists (symbols ds). split; [now rewrite Hloop|]. split.
    + intros Hempty. apply (f_equal String.length) in Hempty.
      rewrite symbols_length in Hempty.
      destruct ds; [apply Hne; [lia | reflexivity] | discriminate].
    + intros c. now apply symbols_chars.
Qed.

Lemma Number_lt_NInt a b : Number_lt (NInt a) (NInt b) = true <-> a < b.
Proof.
  unfold Number_lt, NInt, Qcompare, inject_Z. cbn [Qnum Qden].
  rewrite !Z.mul_1_r. unfold Z.lt.
  destruct (a ?= b); split; congruence.
Qed.

(** X3. The code of a safe integer has at most [L] characters exactly when
    the integer is below [getCapacity(L)], for the lengths 1 to 10 and an
    engine that computes these capacities without error. *)
Theorem idToBase62_length_capacity (ML : MathLibrary) n L :
  pow_exact ML ->
  0 <= n <= 2 ^ 53 - 1 -> 1 <= L <= 10 ->
  exists code,
    idToBase62 (VInt n) = Return code
    /\ (strlen code <= L
        <-> Number_lt (NInt n) (getCapacity (NInt L)) = true).
Proof.
  intros Hpow Hn HL.
  destruct (idToBase62_digits Hn) as (d & ds & He & Hr & Hv & Hd & Hz).
  exists (symbols (d :: ds)). split; [exact He|].
  unfold strlen, getCapacity, BASE. rewrite symbols_length.
  rewrite (Hpow L ltac:(lia)), Number_lt_NInt.
  pose proof (horner_bounds (r := 0) ltac:(lia) Hr) as Hup.
  rewrite Hv in Hup.
  assert (Hlow : 0 < n -> 62 ^ Z.of_nat (length ds) <= n).
  { intros Hpos. specialize (Hd Hpos).
    unfold horner in Hv. cbn [fold_left] in Hv. fold (horner (0 * 62 + d) ds) in Hv.
    pose proof (Forall_inv Hr) as Hdr. cbn beta in Hdr.
    pose proof (horner_bounds (r := 0 * 62 + d) ltac:(lia) (Forall_inv_tail Hr))
      as Hb.
    rewrite Hv in Hb.
    assert (Hp : 0 < 62 ^ Z.of_nat (length ds)) by (apply Z.pow_pos_nonneg; lia).
    nia. }
  cbn [length] in *. split.
  - intros Hlen.
    apply Z.lt_le_trans with (m := (0 + 1) * 62 ^ Z.of_nat (S (length ds)));
      [lia|].
    rewrite Z.mul_1_l. apply Z.pow_le_mono_r; lia.
  - intros Hlt. destruct (Z.eq_dec n 0) as [->|Hnz].
    + rewrite (Hz eq_refl). simpl. lia.
    + specialize (Hlow ltac:(lia)).
      destruct (Z_le_gt_dec (Z.of_nat (S (length ds))) L) as [Hle|Hgt]; [exact Hle|].
      exfalso.
      assert (62 ^ L <= 62 ^ Z.of_nat (length ds))
        by (apply Z.pow_le_mono_r; lia).
      lia.
Qed.



Lemma validate_alphabet s :
  validate s = Return tt ->
  forall c, In c (list_ascii_of_string s) -> in_alphabet c.
Proof.
  induction s as [|a s IH]; [contradiction|].
  cbn [validate].
  destruct (includes BASE62_ALPHABET (String a EmptyString)) eqn:Ha;
    cbn [negb]; [|discriminate].
  intros Hv c [<-|Hc]; [now apply includes_char | now apply IH].
Qed.

Lemma base62ToId_Return s n :
  base62ToId (VStr s) = Return n ->
  s <> ""
  /\ (forall c, In c (list_ascii_of_string s) -> in_alphabet c)
  /\ n = base62ToId_loop s (NInt 0).
Proof.
  unfold base62ToId.
  destruct s as [|a s]; [discriminate|]. cbn [String.length Nat.eqb].
  destruct (validate (String a s)) as [[]|e] eqn:Hv; [|discriminate].
  intros Hn. split; [discriminate|]. split; [now apply validate_alphabet|].
  congruence.
Qed.


(** X5. Leading ['0'] characters do not count: a non-empty string decodes as
    it does behind any number of zeros, errors included. *)
Theorem base62ToId_leading_zeros k s :
  s <> "" ->
  base62ToId (VStr (replicate k "0" ++ s)) = base62ToId (VStr s).
Proof.
  intros Hs. induction k as [|k IH]; [reflexivity|].
  rewrite <- IH. cbn [replicate append].
  assert (Hne : exists a t, replicate k "0" ++ s = String a t).
  { destruct k; cbn [replicate append]; [|eauto].
    destruct s; [contradiction | eauto]. }
  destruct Hne as (a & t & ->).
  unfold base62ToId. cbn [String.length Nat.eqb].
  cbn [validate base62ToId_loop]. reflexivity.
Qed.

(** X6. A string of [L] characters, [L] up to 8, decodes to an integer from
    0 up to, and not including, [getCapacity(L)], on an engine that computes
    these capacities without error. *)
Theorem base62ToId_below_capacity (ML : MathLibrary) s n :
  pow_exact ML ->
  base62ToId (VStr s) = Return n -> strlen s <= 8 ->
  exists z,
    n = NInt z /\ 0 <= z
    /\ Number_lt n (getCapacity (NInt (strlen s))) = true.
Proof.
  intros Hpow Hdec Hlen. apply base62ToId_Return in Hdec as (_ & Hall & ->).
  destruct (alphabet_symbols _ Hall) as [Hsym Hr].
  set (ds := map digitValue (list_ascii_of_string s)) in *.
  pose proof (horner_bounds (r := 0) ltac:(lia) Hr) as Hb.
  assert (HL : Z.of_nat (length ds) = strlen s)
    by (unfold strlen; now rewrite <- Hsym, symbols_length).
  rewrite HL in Hb.
  assert (Hs0 : 0 <= strlen s) by (unfold strlen; lia).
  assert (H8 : 62 ^ strlen s <= 62 ^ 8) by (apply Z.pow_le_mono_r; lia).
  assert (Hsafe : horner 0 ds < 2 ^ 53).
  { apply Z.lt_le_trans with (m := 62 ^ 8); [lia|].
    vm_compute. discriminate. }
  exists (horner 0 ds). split.
  - rewrite <- Hsym at 1. apply base62ToId_loop_symbols; [exact Hr | lia | lia].
  - split; [lia|].
    rewrite <- Hsym at 1.
    rewrite base62ToId_loop_symbols by (try exact Hr; lia).
    unfold getCapacity, BASE. rewrite (Hpow (strlen s) ltac:(lia)).
    apply Number_lt_NInt. lia.
Qed.
End CodecMore.

Lemma exampleMath_exact : pow_exact exampleMath.
Proof.
  intros L HL.
  assert (H : L = 0 \/ L = 1 \/ L = 2 \/ L = 3 \/ L = 4 \/ L = 5 \/ L = 6
              \/ L = 7 \/ L = 8 \/ L = 9 \/ L = 10) by lia.
  repeat (destruct H as [->|H]; [vm_compute; reflexivity|]).
  subst L. vm_compute. reflexivity.
Qed.

Lemma idToBase62_injective_witness :
  0 <= 9007199254740990 <= 2 ^ 53 - 1 /\ 0 <= 9007199254740991 <= 2 ^ 53 - 1
  /\ 9007199254740990 <> 9007199254740991
  /\ Base62.idToBase62 (VInt 9007199254740990)
     <> Base62.idToBase62 (VInt 9007199254740991).
Proof.
  split; [lia|]. split; [lia|]. split; [lia|].
  apply (@idToBase62_injective 9007199254740990 9007199254740991); lia.
Defined.

Lemma idToBase62_alphabet_witness :
  0 <= 3843
  /\ exists code,
       Base62.idToBase62 (VInt 3843) = Return code
       /\ code <> ""
       /\ forall c, In c (list_ascii_of_string code) -> in_alphabet c.
Proof. split; [lia | apply (@idToBase62_alphabet 3843); lia]. Defined.

Lemma idToBase62_length_capacity_witness :
  pow_exact exampleMath
  /\ 0 <= 3844 <= 2 ^ 53 - 1 /\ 1 <= 2 <= 10
  /\ exists code,
       Base62.idToBase62 (VInt 3844) = Return code
       /\ (strlen code <= 2
           <-> Number_lt (NInt 3844) (getCapacity (ML := exampleMath) (NInt 2))
               = true).
Proof.
  split; [exact exampleMath_exact|]. split; [lia|]. split; [lia|].
  apply (@idToBase62_length_capacity exampleMath 3844 2 exampleMath_exact);
    lia.
Defined.


Lemma base62ToId_leading_zeros_witness :
  "z" <> ""
  /\ Base62.base62ToId (VStr (replicate 3 "0" ++ "z"))
     = Base62.base62ToId (VStr "z").
Proof.
  assert (H : "z" <> "") by discriminate.
  split; [exact H | exact (@base62ToId_leading_zeros 3 "z" H)].
Defined.

Lemma base62ToId_below_capacity_witness :
  pow_exact exampleMath
  /\ Base62.base62ToId (VStr "ZZ") = Return (NInt 3843)
  /\ strlen "ZZ" <= 8
  /\ exists z,
       NInt 3843 = NInt z /\ 0 <= z
       /\ Number_lt (NInt 3843)
            (getCapacity (ML := exampleMath) (NInt (strlen "ZZ"))) = true.
Proof.
  assert (H : Base62.base62ToId (VStr "ZZ") = Return (NInt 3843))
    by (vm_compute; reflexivity).
  assert (H8 : strlen "ZZ" <= 8) by (vm_compute; discriminate).
  split; [exact exampleMath_exact|]. split; [exact H|]. split; [exact H8|].
  exact (@base62ToId_below_capacity exampleMath "ZZ" (NInt 3843)
           exampleMath_exact H H8).
Defined.

(** * The routes *)

Lemma isAlphanumeric_alphabet c :
  isAlphanumeric c = includes Base62.BASE62_ALPHABET (String c EmptyString).
Proof. destruct c as [[] [] [] [] [] [] [] []]; vm_compute; reflexivity. Qed.

Lemma matches_base62_spec s :
  matches_base62 s = true
  <-> s <> "" /\ forall c, In c (list_ascii_of_string s) -> in_alphabet c.
Proof.
  unfold matches_base62. rewrite andb_true_iff, negb_true_iff, forallb_forall.
  split; intros [Hne Hall]; split.
  - intros ->. discriminate.
  - intros c Hc. apply includes_char. rewrite <- isAlphanumeric_alphabet. auto.
  - destruct (String.eqb_spec s ""); [contradiction | reflexivity].
  - intros c Hc. rewrite isAlphanumeric_alphabet. apply includes_char.
    exact (Hall c Hc).
Qed.

(** X7. The format check of the two lookup routes, [/^[0-9a-zA-Z]+$/], accepts
    exactly the strings that [base62ToId] decodes. *)
Theorem matches_base62_decodable s :
  matches_base62 s = true <-> exists n, Base62.base62ToId (VStr s) = Return n.
Proof.
  rewrite matches_base62_spec. split.
  - intros [Hne Hall]. exists (Base62.base62ToId_loop s (NInt 0)).
    unfold Base62.base62ToId. destruct s as [|a s]; [contradiction|].
    cbn [String.length Nat.eqb]. now rewrite (validate_ok _ Hall).
  - intros [n Hn]. apply base62ToId_Return in Hn as (Hne & Hall & _). auto.
Qed.

Section Routes.
Context {P : Platform} {D C : Type} {db : Database D} {cache : CacheClient C}.

(** X8. GET /:shortCode never sends a redirect: whatever the code, the cache
    and the store, it answers with status 400, 404 or 500. *)
Theorem get_shortCode_never_redirects code (w : world D C) :
  exists s text,
    fst (get_shortCode code w) = Send s text
    /\ (s = 400 \/ s = 404 \/ s = 500).
Proof.
  unfold get_shortCode, get_shortCode_body.
  destruct (matches_base62 code); cbn [negb]; [|unfold ret; simpl; eauto].
  destruct (10 <? strlen code); [unfold ret; simpl; eauto|].
  unfold bind at 1.
  destruct (getOriginalUrl (VStr code) w) as [[url|e] w']; [|simpl; eauto 6].
  destruct (truthy url); cbn [negb]; simpl; eauto 6.
Qed.

(** X9. A well-formed code that resolves to a URL is answered with status 500:
    the lookup is made, the click it counts included, and the redirect that
    should follow fails on the missing [config]. *)
Theorem get_shortCode_found_is_500 code url (w w' : world D C) :
  matches_base62 code = true -> strlen code <= 10 ->
  getOriginalUrl (VStr code) w = (Return url, w') -> truthy url = true ->
  get_shortCode code w = (Send 500 "Internal server error", w').
Proof.
  intros Hm Hlen Hget Hurl. unfold get_shortCode, get_shortCode_body.
  rewrite Hm. cbn [negb].
  destruct (10 <? strlen code) eqn:Hl; [apply Z.ltb_lt in Hl; lia|].
  unfold bind at 1. rewrite Hget, Hurl. reflexivity.
Qed.

(** X10. For a code that [base62ToId] would not decode, both lookup routes
    answer 400 and consult neither cache nor store; so does the redirect
    route for a code longer than ten characters. *)
Theorem lookup_routes_reject_malformed code (w : world D C) :
  ((forall n, Base62.base62ToId (VStr code) <> Return n) ->
   get_shortCode code w = (Send 400 "Invalid short code format", w)
   /\ get_stats code w = (StatsError 400 "Invalid short code format", w))
  /\ (matches_base62 code = true -> 10 < strlen code ->
      get_shortCode code w = (Send 400 "Short code too long", w)).
Proof.
  split.
  - intros Hno.
    assert (Hm : matches_base62 code = false).
    { destruct (matches_base62 code) eqn:Hm; [|reflexivity].
      apply matches_base62_spec in Hm as [Hne Hall].
      destruct (Hno (Base62.base62ToId_loop code (NInt 0))).
      unfold Base62.base62ToId. destruct code as [|a code]; [contradiction|].
      cbn [String.length Nat.eqb]. now rewrite (validate_ok _ Hall). }
    unfold get_shortCode, get_shortCode_body, get_stats, get_stats_body.
    rewrite Hm. split; reflexivity.
  - intros Hm Hlen. unfold get_shortCode, get_shortCode_body.
    rewrite Hm. apply Z.ltb_lt in Hlen. rewrite Hlen. reflexivity.
Qed.

(** X11. POST /api/shorten answers 201 with the short URL or 400 with an
    error, and nothing else: every error of the service, a failure of the
    store included, is reported as a 400. *)
Theorem post_shorten_statuses url expires_at (w : world D C) :
  let r := fst (post_shorten url expires_at w) in
  (status r = 201 /\ exists res, body r = JsonShortUrl res)
  \/ (status r = 400
      /\ ((exists msg, body r = JsonError msg)
          \/ (exists msg ex, body r = JsonErrorExample msg ex))).
Proof.
  assert (Hcreate : forall exp (w0 : world D C),
             let r := fst (match respond_created url exp w0 with
                           | (Return r, w') => (r, w')
                           | (Throw e, w') =>
                               ({| status := 400;
                                   body := JsonError (message e) |}, w')
                           end) in
             (status r = 201 /\ exists res, body r = JsonShortUrl res)
             \/ (status r = 400
                 /\ ((exists msg, body r = JsonError msg)
                     \/ (exists msg ex, body r = JsonErrorExample msg ex)))).
  { intros exp w0. unfold respond_created, bind.
    destruct (createShortUrl url exp w0) as [[res|e] w1]; simpl; eauto 7. }
  unfold post_shorten, post_shorten_body.
  destruct (truthy url); cbn [negb]; [|simpl; right; eauto 7].
  destruct (truthy expires_at); [|exact (Hcreate _ _)].
  destruct (newDate expires_at) as [t|]; [|simpl; right; eauto 7].
  unfold bind, Date_now.
  destruct (Date_lt (Some t) (Some (clock w))); [simpl; right; eauto 7|].
  exact (Hcreate _ _).
Qed.

Lemma evict_rows_safe rs (w : world D C) :
  fst (evict_rows rs w) = Return tt
  /\ db_state (snd (evict_rows rs w)) = db_state w
  /\ clock (snd (evict_rows rs w)) = clock w.
Proof.
  revert w. induction rs as [|r rs IH]; intros w; [simpl; auto|].
  cbn [evict_rows]. unfold bind.
  pose proof (evict_safe (D := D) (short_code r) w) as (He & Hd & Hc).
  destruct (evict (short_code r) w) as [o w1]. simpl in He, Hd, Hc. subst o.
  destruct (IH w1) as (He' & Hd' & Hc'). rewrite He', Hd', Hc'. auto.
Qed.

(** X12. POST /api/admin/cleanup answers 200 with the [rowCount] of the
    DELETE statement whenever that statement returns rows, whatever happens
    while the cache entries are evicted; the store is left as the statement
    left it. *)
Theorem post_admin_cleanup_reports_rowCount (w : world D C) res rs d' :
  db_query SQL.delete_expired [] (clock w) (db_state w) = (Return res, d') ->
  rows res = Some rs ->
  exists w',
    post_admin_cleanup w
    = (CleanupJson 200 "Cleanup completed" (rowCount res), w')
    /\ db_state w' = d' /\ clock w' = clock w.
Proof.
  intros Hq Hrows. unfold post_admin_cleanup, cleanupExpiredUrls.
  unfold bind at 1, query. rewrite Hq.
  unfold bind at 1, get_rows. rewrite Hrows. unfold ret at 1.
  set (w1 := {| db_state := d'; cache_state := cache_state w;
                clock := clock w |}).
  unfold bind at 1.
  destruct (0 <? Z.of_nat (length rs)).
  - pose proof (evict_rows_safe rs w1) as (He & Hd & Hc).
    destruct (evict_rows rs w1) as [o w2]. simpl in He, Hd, Hc. subst o.
    exists w2. unfold ret. auto.
  - exists w1. unfold ret. auto.
Qed.
End Routes.

Lemma get_shortCode_found_is_500_witness :
  let w := store_of [entry 2 url_a VNull "2"] 3 in
  let w' := snd (getOriginalUrl (VStr "2") w) in
  matches_base62 "2" = true /\ strlen "2" <= 10
  /\ getOriginalUrl (VStr "2") w = (Return (VStr url_a), w')
  /\ truthy (VStr url_a) = true
  /\ get_shortCode "2" w = (Send 500 "Internal server error", w').
Proof.
  intros w w'.
  assert (H1 : matches_base62 "2" = true) by reflexivity.
  assert (H2 : strlen "2" <= 10) by (vm_compute; discriminate).
  assert (H3 : getOriginalUrl (VStr "2") w = (Return (VStr url_a), w'))
    by (vm_compute; reflexivity).
  assert (H4 : truthy (VStr url_a) = true) by reflexivity.
  split; [exact H1|]. split; [exact H2|]. split; [exact H3|].
  split; [exact H4|].
  exact (@get_shortCode_found_is_500 _ _ _ _ _ "2" (VStr url_a) w w'
           H1 H2 H3 H4).
Defined.

Lemma lookup_routes_reject_malformed_witness :
  (forall n, Base62.base62ToId (VStr "a-b") <> Return n)
  /\ get_shortCode "a-b" fresh_world
     = (Send 400 "Invalid short code format", fresh_world)
  /\ get_stats "a-b" fresh_world
     = (StatsError 400 "Invalid short code format", fresh_world)
  /\ matches_base62 "00000000001" = true /\ 10 < strlen "00000000001"
  /\ get_shortCode "00000000001" fresh_world
     = (Send 400 "Short code too long", fresh_world).
Proof.
  assert (H1 : forall n, Base62.base62ToId (VStr "a-b") <> Return n)
    by (intros n H; vm_compute in H; discriminate).
  assert (H2 : matches_base62 "00000000001" = true) by reflexivity.
  assert (H3 : 10 < strlen "00000000001") by (vm_compute; reflexivity).
  split; [exact H1|].
  split; [exact (proj1 (proj1 (lookup_routes_reject_malformed
                                 "a-b" fresh_world) H1))|].
  split; [exact (proj2 (proj1 (lookup_routes_reject_malformed
                                 "a-b" fresh_world) H1))|].
  split; [exact H2|]. split; [exact H3|].
  exact (proj2 (lookup_routes_reject_malformed "00000000001" fresh_world)
           H2 H3).
Defined.

Lemma post_admin_cleanup_reports_rowCount_witness :
  let res := {| rows := Some [code_row "1" url_a; code_row "2" url_a];
                rowCount := VInt 2 |} in
  let w : world unit unit :=
    {| db_state := tt; cache_state := tt; clock := 1000 |} in
  db_query (Database := FixedDatabase res) SQL.delete_expired []
    (clock w) (db_state w) = (Return res, tt)
  /\ rows res = Some [code_row "1" url_a; code_row "2" url_a]
  /\ exists w',
       post_admin_cleanup (db := FixedDatabase res) (cache := FailingCache) w
       = (CleanupJson 200 "Cleanup completed" (rowCount res), w')
       /\ db_state w' = tt /\ clock w' = clock w.
Proof.
  intros res w.
  assert (H1 : db_query (Database := FixedDatabase res) SQL.delete_expired []
                 (clock w) (db_state w) = (Return res, tt)) by reflexivity.
  assert (H2 : rows res = Some [code_row "1" url_a; code_row "2" url_a])
    by reflexivity.
  split; [exact H1|]. split; [exact H2|].
  exact (post_admin_cleanup_reports_rowCount
           (db := FixedDatabase res) (cache := FailingCache) w H1 H2).
Defined.

(** * The in-memory cache and store *)

Section MapFacts.

Ltac svz_cases :=
  repeat match goal with
    | H : Bool.eqb _ _ = true |- _ => apply Bool.eqb_prop in H; subst
    | H : String.eqb _ _ = true |- _ => apply String.eqb_eq in H; subst
    | H : Qeq_bool _ _ = true |- _ => apply Qeq_bool_iff in H
    end.

Lemma sameValueZero_trans a b c :
  sameValueZero a b = true -> sameValueZero b c = true ->
  sameValueZero a c = true.
Proof.
  destruct a as [| |x|[p| |x]|s|t|o], b as [| |y|[q| |y]|s'|t'|o'],
    c as [| |z|[r| |z]|s''|t''|o'']; simpl;
    try discriminate; try reflexivity; intros H1 H2; svz_cases.
  - apply Bool.eqb_reflx.
  - apply Qeq_bool_iff. now rewrite H1.
  - apply Bool.eqb_reflx.
  - apply String.eqb_refl.
Qed.

Lemma sameValueZero_sym a b : sameValueZero a b = sameValueZero b a.
Proof.
  destruct a as [| |x|[p| |x]|s|t|o], b as [| |y|[q| |y]|s'|t'|o']; simpl;
    try reflexivity.
  - now destruct x, y.
  - destruct (Qeq_bool p q) eqn:E1, (Qeq_bool q p) eqn:E2; try reflexivity.
    + apply Qeq_bool_iff in E1. symmetry in E1. apply Qeq_bool_iff in E1.
      congruence.
    + apply Qeq_bool_iff in E2. symmetry in E2. apply Qeq_bool_iff in E2.
      congruence.
  - now destruct x, y.
  - apply String.eqb_sym.
Qed.

(** Two keys equal to a third are equal to each other. *)
Lemma sameValueZero_common a b k :
  sameValueZero a k = true -> sameValueZero b k = true ->
  sameValueZero a b = true.
Proof.
  intros Ha Hb. rewrite sameValueZero_sym in Hb.
  exact (sameValueZero_trans _ _ _ Ha Hb).
Qed.


Context {V : Type}.

Lemma JsMap_get_set_same k (v : V) m :
  sameValueZero k k = true -> JsMap.get k (JsMap.set k v m) = Some v.
Proof.
  intros Hk. induction m as [|[k0 v0] m IH]; simpl.
  - now rewrite Hk.
  - destruct (sameValueZero k0 k) eqn:E; simpl; now rewrite E.
Qed.

Lemma JsMap_get_set_other k k' (v : V) m :
  sameValueZero k k' = false ->
  JsMap.get k' (JsMap.set k v m) = JsMap.get k' m.
Proof.
  intros Hne. induction m as [|[k0 v0] m IH]; simpl.
  - now rewrite Hne.
  - destruct (sameValueZero k0 k) eqn:E; simpl.
    + destruct (sameValueZero k0 k') eqn:E'; [|reflexivity].
      rewrite sameValueZero_sym in E, E'.
      rewrite (sameValueZero_common _ _ _ E E') in Hne. discriminate.
    + now rewrite IH.
Qed.

Lemma JsMap_get_absent k (m : JsMap.t V) :
  Forall (fun kv => sameValueZero (fst kv) k = false) m ->
  JsMap.get k m = None.
Proof.
  induction 1 as [|[k0 v0] m Hk _ IH]; simpl; [reflexivity|].
  simpl in Hk. now rewrite Hk.
Qed.

Lemma JsMap_get_delete_same k (m : JsMap.t V) :
  well_keyed m -> JsMap.get k (JsMap.delete k m) = None.
Proof.
  induction m as [|[k0 v0] m IH]; simpl; [reflexivity|].
  intros (Hk0 & Hall & Hw). destruct (sameValueZero k0 k) eqn:E; simpl.
  - apply JsMap_get_absent. apply Forall_forall. intros kv Hin.
    rewrite Forall_forall in Hall. specialize (Hall kv Hin).
    destruct (sameValueZero (fst kv) k) eqn:E'; [|reflexivity].
    rewrite (sameValueZero_common _ _ _ E E') in Hall. discriminate.
  - rewrite E. auto.
Qed.

Lemma JsMap_has_set k k' (v : V) m :
  JsMap.has k m = true -> JsMap.has k (JsMap.set k' v m) = true.
Proof.
  unfold JsMap.has. induction m as [|[k0 v0] m IH]; simpl; [discriminate|].
  destruct (sameValueZero k0 k') eqn:E; simpl;
    destruct (sameValueZero k0 k); auto.
Qed.





End MapFacts.

(** X13. The in-memory cache: a value read back under the key it was stored
    with is the value stored, or null when that value is empty, zero or
    otherwise falsy; other keys are not disturbed; a deleted key reads as
    null. *)
Theorem mock_cache_roundtrip key v ex (c : MockCache) :
  sameValueZero key key = true ->
  fst (mock_get key (snd (mock_set key v ex c)))
  = Return (if truthy v then v else VNull)
  /\ (forall other,
        sameValueZero key other = false ->
        fst (mock_get other (snd (mock_set key v ex c)))
        = fst (mock_get other c))
  /\ (well_keyed (memoryCache c) ->
      fst (mock_get key (snd (mock_del key c))) = Return VNull).
Proof.
  intros Hk. unfold mock_get, mock_set, mock_del. cbn [fst snd memoryCache].
  split; [|split].
  - now rewrite JsMap_get_set_same.
  - intros other Hne. now rewrite JsMap_get_set_other.
  - intros Hw. now rewrite JsMap_get_delete_same.
Qed.

Lemma mock_cache_roundtrip_witness :
  let c := {| isReady := true; memoryCache := [(VStr "2", VStr url_a)] |} in
  sameValueZero (VStr "1") (VStr "1") = true
  /\ fst (mock_get (VStr "1") (snd (mock_set (VStr "1") (VStr "") 86400 c)))
     = Return VNull
  /\ (forall other,
        sameValueZero (VStr "1") other = false ->
        fst (mock_get other (snd (mock_set (VStr "1") (VStr "") 86400 c)))
        = fst (mock_get other c))
  /\ (well_keyed (memoryCache c) ->
      fst (mock_get (VStr "1") (snd (mock_del (VStr "1") c))) = Return VNull).
Proof.
  intros c.
  exact (conj eq_refl
           (@mock_cache_roundtrip (VStr "1") (VStr "") 86400 c eq_refl)).
Defined.

Section StoreFacts.
Context {P : Platform}.




Lemma find_after_set (p : row -> bool) k e (m : JsMap.t row) :
  no_record p m -> p e = true ->
  find p (JsMap.values (JsMap.set k e m)) = Some e.
Proof.
  unfold no_record, JsMap.values. intros Hnone He.
  induction Hnone as [|[k0 v0] m Hv _ IH]; simpl; [now rewrite He|].
  simpl in Hv. destruct (sameValueZero k0 k); simpl.
  - now rewrite He.
  - now rewrite Hv.
Qed.

(** X15. A record inserted with a code of its own (not the placeholder
    ['TEMP']) that no record of the store carries is what the lookup by that
    code returns next, with the URL and expiry it was inserted with, no
    clicks, and the id that was [currentId]. *)
Theorem mock_insert_then_select url expires code now_ st :
  code <> "" -> code <> "TEMP" ->
  no_record (has_code (VStr code)) (urls st) ->
  let st' := snd (mock_query SQL.insert_url [VStr url; expires; VStr code]
                    now_ st) in
  exists r,
    mock_query SQL.select_by_code [VStr code] now_ st'
    = (Return {| rows := Some [r]; rowCount := VInt 1 |}, st')
    /\ id r = VInt (currentId st)
    /\ original_url r = VStr url
    /\ expires_at r = expires
    /\ short_code r = VStr code
    /\ click_count r = VInt 0.
Proof.
  intros Hne Htemp Hnone st'.
  assert (Hcode : truthy (VStr code) = true).
  { simpl. destruct (String.eqb_spec code ""); [contradiction | reflexivity]. }
  assert (Hst : st' = {| urls := JsMap.set (VInt (currentId st))
                                   {| id := VInt (currentId st);
                                      original_url := VStr url;
                                      expires_at := expires;
                                      short_code := VStr code;
                                      click_count := VInt 0;
                                      created_at := VDate (Some now_);
                                      now := VUndefined |} (urls st);
                         currentId := currentId st + 1 |}).
  { unfold st', mock_query. eval_includes.
    cbn [nth strictEquals andb length].
    destruct (String.eqb_spec code "TEMP") as [|_]; [contradiction|].
    cbn [andb Z.of_nat Z.leb Z.compare Pos.of_succ_nat Pos.succ Pos.compare
         Pos.compare_cont snd].
    unfold js_or. rewrite Hcode. reflexivity. }
  rewrite Hst. rewrite mock_select_by_code. cbn [urls].
  rewrite find_after_set; [| exact Hnone |].
  - eexists. split; [reflexivity|]. cbn. auto 6.
  - unfold has_code. cbn [short_code strictEquals]. apply String.eqb_refl.
Qed.
End StoreFacts.


Lemma mock_insert_then_select_witness :
  let st := {| urls := [entry 1 url_a VNull "1"]; currentId := 2 |} in
  "2" <> "" /\ "2" <> "TEMP"
  /\ no_record (has_code (VStr "2")) (urls st)
  /\ let st' := snd (mock_query SQL.insert_url
                       [VStr url_a; VDate (Some 2000); VStr "2"] 1000 st) in
     exists r,
       mock_query SQL.select_by_code [VStr "2"] 1000 st'
       = (Return {| rows := Some [r]; rowCount := VInt 1 |}, st')
       /\ id r = VInt (currentId st)
       /\ original_url r = VStr url_a
       /\ expires_at r = VDate (Some 2000)
       /\ short_code r = VStr "2"
       /\ click_count r = VInt 0.
Proof.
  intros st.
  assert (H1 : "2" <> "") by discriminate.
  assert (H2 : "2" <> "TEMP") by discriminate.
  assert (H3 : no_record (has_code (VStr "2")) (urls st))
    by (constructor; [reflexivity | constructor]).
  split; [exact H1|]. split; [exact H2|]. split; [exact H3|].
  exact (@mock_insert_then_select examplePlatform url_a (VDate (Some 2000))
           "2" 1000 st H1 H2 H3).
Defined.

(** * The write and the read path over the in-memory store *)

Section MockPaths.
Context {P : Platform} {C : Type} {cache : CacheClient C}.

Lemma mock_insert_temp a b now_ st :
  mock_query SQL.insert_url [a; b; VStr "TEMP"] now_ st
  = (Return {| rows := Some [ {| id := VInt (currentId st);
                                 original_url := VUndefined;
                                 expires_at := VUndefined;
                                 short_code := VUndefined;
                                 click_count := VUndefined;
                                 created_at := VUndefined;
                                 now := VUndefined |} ];
               rowCount := VUndefined |},
     take_id st).
Proof. unfold mock_query. eval_includes. reflexivity. Qed.

Lemma mock_update_code params now_ st :
  mock_query SQL.update_code params now_ st
  = (Return {| rows := None; rowCount := VInt 1 |}, st).
Proof. unfold mock_query. eval_includes. reflexivity. Qed.



(** What [createShortUrl] does over the in-memory store with an input that
    passes validation. *)
Lemma createShortUrl_mock_valid s exp (w : world MockDb C) :
  s <> "" -> isURL (trim s) = true ->
  strlen (trim s) <= config.app_maxUrlLength ->
  createShortUrl (VStr s) exp w
  = match (if truthy exp then None
           else find (has_url (VStr (trim s)))
                  (JsMap.values (urls (db_state w)))) with
    | Some e =>
        (Return {| shortCode := short_code e;
                   shortUrl := baseUrl ++ "/" ++ ToString (short_code e);
                   originalUrl := trim s;
                   isNew := false |}, w)
    | None =>
        match Base62.idToBase62 (VInt (currentId (db_state w))) with
        | Return code =>
            (Return {| shortCode := VStr code;
                       shortUrl := baseUrl ++ "/" ++ code;
                       originalUrl := trim s;
                       isNew := true |},
             snd (warm_cache (VStr code) (VStr (trim s))
                    (with_db (take_id (db_state w)) w)))
        | Throw e => (Throw e, with_db (take_id (db_state w)) w)
        end
    end.
Proof.
  intros Hs Hurl Hlen. unfold createShortUrl.
  assert (Ht : truthy (VStr s) = true).
  { simpl. destruct (String.eqb_spec s ""); [contradiction | reflexivity]. }
  rewrite Ht, Hurl. cbn [typeof negb orb].
  change (("string" =? "string")%string) with true. cbn [negb].
  destruct (config.app_maxUrlLength <? strlen (trim s)) eqn:Hl;
    [apply Z.ltb_lt in Hl; lia|].
  assert (Hnew :
    (result <- query SQL.insert_url
                 [VStr (trim s); js_or exp VNull; VStr "TEMP"];;
     id_ <- first_row_id result;;
     shortCode <- lift (Base62.idToBase62 id_);;
     query SQL.update_code [VStr shortCode; id_];;
     warm_cache (VStr shortCode) (VStr (trim s));;
     ret {| shortCode := VStr shortCode;
            shortUrl := baseUrl ++ "/" ++ shortCode;
            originalUrl := trim s;
            isNew := true |}) w
    = match Base62.idToBase62 (VInt (currentId (db_state w))) with
      | Return code =>
          (Return {| shortCode := VStr code;
                     shortUrl := baseUrl ++ "/" ++ code;
                     originalUrl := trim s;
                     isNew := true |},
           snd (warm_cache (VStr code) (VStr (trim s))
                  (with_db (take_id (db_state w)) w)))
      | Throw e => (Throw e, with_db (take_id (db_state w)) w)
      end).
  { unfold bind at 1, query. cbn [db_query MockDatabase].
    rewrite mock_insert_temp.
    unfold bind at 1, first_row_id, bind at 1, get_rows. cbn [rows ret id].
    unfold bind at 1, lift. fold (with_db (take_id (db_state w)) w).
    destruct (Base62.idToBase62 (VInt (currentId (db_state w))))
      as [code|e]; [|reflexivity].
    unfold bind at 1, query. cbn [db_query MockDatabase].
    rewrite mock_update_code. unfold bind at 1.
    cbn [with_db db_state cache_state clock].
    fold (with_db (take_id (db_state w)) w).
    pose proof (warm_cache_safe (VStr code) (VStr (trim s))
                  (with_db (take_id (db_state w)) w)) as (Hw & _).
    destruct (warm_cache (VStr code) (VStr (trim s))
                (with_db (take_id (db_state w)) w)) as [o w2].
    simpl in Hw. subst o. reflexivity. }
  unfold bind at 1, find_duplicate.
  destruct (truthy exp); cbn [negb].
  - unfold ret at 1. exact Hnew.
  - unfold try_catch, bind at 1, query. cbn [db_query MockDatabase].
    rewrite mock_select_duplicate.
    destruct (find (has_url (VStr (trim s))) (JsMap.values (urls (db_state w))))
      as [e|].
    + destruct w as [d c t]. reflexivity.
    + replace {| db_state := db_state w; cache_state := cache_state w;
                 clock := clock w |} with w by (destruct w; reflexivity).
      unfold bind at 1, get_rows. cbn [rows ret]. exact Hnew.
Qed.

(** Every other input is rejected before the store is touched. *)
Lemma createShortUrl_cases url exp (w : world MockDb C) :
  (exists e, createShortUrl url exp w = (Throw e, w))
  \/ (exists s, url = VStr s /\ s <> "" /\ isURL (trim s) = true
                /\ strlen (trim s) <= config.app_maxUrlLength).
Proof.
  unfold createShortUrl.
  destruct url as [| |b|n|s|t|o];
    try (left; eexists; rewrite orb_true_r; reflexivity);
    try (left; eexists; reflexivity).
  destruct (String.eqb_spec s "") as [->|Hs]; [left; eexists; reflexivity|].
  assert (Ht : truthy (VStr s) = true).
  { simpl. destruct (String.eqb_spec s ""); [contradiction | reflexivity]. }
  rewrite Ht. cbn [typeof negb orb].
  change (("string" =? "string")%string) with true. cbn [negb].
  destruct (isURL (trim s)) eqn:Hurl; cbn [negb]; [|left; eexists; reflexivity].
  destruct (config.app_maxUrlLength <? strlen (trim s)) eqn:Hl;
    [left; eexists; reflexivity|].
  right. exists s. apply Z.ltb_ge in Hl. auto.
Qed.

Lemma createShortUrl_mock_store url exp (w : world MockDb C) :
  db_state (snd (createShortUrl url exp w)) = db_state w
  \/ db_state (snd (createShortUrl url exp w)) = take_id (db_state w).
Proof.
  destruct (createShortUrl_cases url exp w)
    as [[e ->] | (s & -> & Hs & Hurl & Hlen)]; [left; reflexivity|].
  rewrite (createShortUrl_mock_valid exp w Hs Hurl Hlen).
  destruct (if truthy exp then None else _) as [e|]; [left; reflexivity|].
  right. destruct (Base62.idToBase62 _) as [code|e]; [|reflexivity].
  cbn [snd].
  now rewrite (proj1 (proj2 (warm_cache_safe (VStr code) (VStr (trim s))
                               (with_db (take_id (db_state w)) w)))).
Qed.

(** X16. Over the in-memory store [createShortUrl] never stores a record:
    whatever the request and its outcome, the records are those that were
    there before. *)
Theorem createShortUrl_stores_nothing url exp (w : world MockDb C) :
  urls (db_state (snd (createShortUrl url exp w))) = urls (db_state w).
Proof.
  destruct (createShortUrl_mock_store url exp w) as [-> | ->]; reflexivity.
Qed.

End MockPaths.


Section MockReads.
Context {P : Platform} {C : Type} {cache : CacheClient C}.




(** X19. With the cache client not ready, a short URL that was just created
    cannot be resolved: unless the store already held a record with the
    code, the read that follows returns null. *)
Theorem created_code_lost_without_cache url exp r (w w' : world MockDb C) :
  createShortUrl url exp w = (Return r, w') ->
  cache_isReady (cache_state w') = false ->
  no_record (has_code (shortCode r)) (urls (db_state w)) ->
  fst (getOriginalUrl (shortCode r) w') = Return VNull.
Proof.
  intros Hc Hready Hnone.
  assert (Hurls : urls (db_state w') = urls (db_state w)).
  { pose proof (createShortUrl_mock_store url exp w) as Hst.
    rewrite Hc in Hst. cbn [snd] in Hst. destruct Hst as [-> | ->]; reflexivity. }
  unfold getOriginalUrl, bind at 1, cache_lookup, try_catch, bind at 1,
    cache_ready.
  rewrite Hready. unfold ret at 1. cbn [truthy].
  rewrite store_lookup_mock, Hurls.
  now rewrite (find_no_record Hnone).
Qed.
End MockReads.

Lemma created_code_lost_without_cache_witness :
  let w : world MockDb MockCache :=
    {| db_state := {| urls := []; currentId := 1 |};
       cache_state := {| isReady := false; memoryCache := [] |};
       clock := 1000 |} in
  let r := {| shortCode := VStr "1";
              shortUrl := "http://localhost:3000/1";
              originalUrl := url_a;
              isNew := true |} in
  let w' := snd (createShortUrl (VStr url_a) VUndefined w) in
  createShortUrl (VStr url_a) VUndefined w = (Return r, w')
  /\ cache_isReady (cache_state w') = false
  /\ no_record (has_code (shortCode r)) (urls (db_state w))
  /\ fst (getOriginalUrl (shortCode r) w') = Return VNull.
Proof.
  intros w r w'.
  assert (H1 : createShortUrl (VStr url_a) VUndefined w = (Return r, w'))
    by (vm_compute; reflexivity).
  assert (H2 : cache_isReady (cache_state w') = false) by reflexivity.
  assert (H3 : no_record (has_code (shortCode r)) (urls (db_state w)))
    by constructor.
  split; [exact H1|]. split; [exact H2|]. split; [exact H3|].
  exact (@created_code_lost_without_cache examplePlatform _ _ (VStr url_a)
           VUndefined r w w' H1 H2 H3).
Defined.

(** * Reads served by the in-memory cache *)

Section KeepsCache.
Context {P : Platform} {D C : Type} {db : Database D} {cache : CacheClient C}.

Lemma keeps_ret {A} (a : A) : keeps_cache (D := D) (C := C) (ret a).
Proof. intros w. reflexivity. Qed.

Lemma keeps_bind {A B} (m : M D C A) (k : A -> M D C B) :
  keeps_cache m -> (forall a, keeps_cache (k a)) -> keeps_cache (bind m k).
Proof.
  intros Hm Hk w. unfold bind. specialize (Hm w).
  destruct (m w) as [[a|e] w1]; simpl in *; [|exact Hm].
  now rewrite Hk.
Qed.

Lemma keeps_try_catch {A} (m : M D C A) h :
  keeps_cache m -> (forall e, keeps_cache (h e)) -> keeps_cache (try_catch m h).
Proof.
  intros Hm Hh w. unfold try_catch. specialize (Hm w).
  destruct (m w) as [[a|e] w1]; simpl in *; [exact Hm|].
  now rewrite Hh.
Qed.

Lemma keeps_query sql params : keeps_cache (C := C) (query sql params).
Proof.
  intros w. unfold query.
  destruct (db_query sql params (clock w) (db_state w)); reflexivity.
Qed.

Lemma keeps_detach {A} (m : M D C A) : keeps_cache m -> keeps_cache (detach m).
Proof. intros Hm w. unfold detach. simpl. apply Hm. Qed.

Lemma keeps_get_rows res : keeps_cache (D := D) (C := C) (get_rows res).
Proof. intros w. unfold get_rows. destruct (rows res); reflexivity. Qed.

Lemma keeps_incrementClickCount code :
  keeps_cache (C := C) (incrementClickCount code).
Proof.
  apply keeps_bind; [apply keeps_query | intros _; apply keeps_ret].
Qed.

Lemma keeps_find_duplicate url exp :
  keeps_cache (C := C) (find_duplicate url exp).
Proof.
  unfold find_duplicate. destruct (negb (truthy exp)); [|apply keeps_ret].
  apply keeps_try_catch; [|intros _; apply keeps_ret].
  apply keeps_bind; [apply keeps_query|]. intros res.
  apply keeps_bind; [apply keeps_get_rows|]. intros [|r rs]; apply keeps_ret.
Qed.

(** A request answered as new has written its code and its trimmed URL to
    the cache as the last thing it did, the cache being until then as it was
    at the start. *)
Lemma createShortUrl_new_warms s exp r (w w' : world D C) :
  createShortUrl (VStr s) exp w = (Return r, w') -> isNew r = true ->
  exists code w3,
    shortCode r = VStr code /\ originalUrl r = trim s
    /\ isURL (trim s) = true
    /\ cache_state w3 = cache_state w
    /\ w' = snd (warm_cache (VStr code) (VStr (trim s)) w3).
Proof.
  intros Hc Hnew. unfold createShortUrl in Hc.
  destruct (negb (truthy (VStr s)) || _); [discriminate|].
  destruct (isURL (trim s)) eqn:Hurl; cbn [negb] in Hc; [|discriminate].
  destruct (config.app_maxUrlLength <? strlen (trim s)); [discriminate|].
  unfold bind at 1 in Hc.
  pose proof (keeps_find_duplicate (trim s) exp w) as Hk1.
  destruct (find_duplicate (trim s) exp w) as [[[c|]|e] w1];
    cbn [snd] in Hk1; [| |discriminate].
  { unfold ret in Hc. injection Hc as <- _. discriminate. }
  unfold bind at 1 in Hc.
  match type of Hc with context [query ?q ?ps w1] =>
    pose proof (keeps_query q ps w1) as Hk2;
    destruct (query q ps w1) as [[res|e] w2]; cbn [snd] in Hk2;
    [|discriminate]
  end.
  unfold bind at 1 in Hc.
  assert (Hk3 : cache_state (snd (first_row_id res w2)) = cache_state w2).
  { unfold first_row_id, bind, get_rows.
    destruct (rows res) as [[|r0 rs]|]; reflexivity. }
  destruct (first_row_id res w2) as [[id_|e] w3]; cbn [snd] in Hk3;
    [|discriminate].
  unfold bind at 1, lift in Hc.
  destruct (Base62.idToBase62 id_) as [code|e]; [|discriminate].
  unfold bind at 1 in Hc.
  match type of Hc with context [query ?q ?ps w3] =>
    pose proof (keeps_query q ps w3) as Hk4;
    destruct (query q ps w3) as [[res'|e] w4]; cbn [snd] in Hk4;
    [|discriminate]
  end.
  unfold bind at 1 in Hc.
  destruct (warm_cache (VStr code) (VStr (trim s)) w4) as [[[]|e] w5] eqn:Hwarm;
    [|discriminate].
  unfold ret in Hc. injection Hc as <- <-.
  exists code, w4. cbn [shortCode originalUrl].
  split; [reflexivity|]. split; [reflexivity|]. split; [reflexivity|].
  split; [congruence|]. now rewrite Hwarm.
Qed.
End KeepsCache.

Section CachedReads.
Context {P : Platform} {D : Type} {db : Database D}.

(** A ready cache that holds a usable value under the key answers the read,
    and is left as it was. *)
Lemma cached_read key u (w : world D MockCache) :
  isReady (cache_state w) = true ->
  JsMap.get key (memoryCache (cache_state w)) = Some u ->
  truthy u = true ->
  fst (getOriginalUrl key w) = Return u
  /\ cache_state (snd (getOriginalUrl key w)) = cache_state w.
Proof.
  intros Hready Hget Hu.
  assert (Hl : cache_lookup key w = (Return u, w)).
  { unfold cache_lookup, try_catch, bind, cache_ready, on_cache.
    cbn [cache_isReady cache_get MockCacheClient mock_get].
    rewrite Hready, Hget. unfold js_or. rewrite Hu.
    destruct w; reflexivity. }
  assert (Hg : getOriginalUrl key w
               = (Return u, snd (incrementClickCount key w))).
  { unfold getOriginalUrl, bind at 1. rewrite Hl, Hu. reflexivity. }
  rewrite Hg. cbn [fst snd].
  split; [reflexivity|]. apply keeps_incrementClickCount.
Qed.

Lemma warm_cache_mock key v (w : world D MockCache) :
  isReady (cache_state w) = true ->
  cache_state (snd (warm_cache key v w))
  = {| isReady := true; memoryCache := JsMap.set key v (memoryCache (cache_state w)) |}.
Proof.
  intros Hready. unfold warm_cache, try_catch, bind, cache_ready, on_cache.
  cbn [cache_isReady cache_set MockCacheClient mock_set].
  rewrite Hready. unfold ret. cbn [snd cache_state]. now rewrite Hready.
Qed.

(** X20. With the in-memory cache connected, the code of a request answered
    as new resolves to the request's trimmed URL from then on, whatever the
    store holds and whatever the clock reads. *)
Theorem created_code_served_from_cache s exp r (w w' : world D MockCache) :
  isReady (cache_state w) = true -> isURL "" = false ->
  createShortUrl (VStr s) exp w = (Return r, w') -> isNew r = true ->
  forall d t,
    fst (getOriginalUrl (shortCode r)
           {| db_state := d; cache_state := cache_state w'; clock := t |})
    = Return (VStr (originalUrl r)).
Proof.
  intros Hready Hempty Hc Hnew d t.
  apply createShortUrl_new_warms in Hc; [|exact Hnew].
  destruct Hc as (code & w3 & -> & -> & Hurl & Hcache & ->).
  assert (Hr3 : isReady (cache_state w3) = true) by congruence.
  rewrite warm_cache_mock by exact Hr3.
  apply cached_read; cbn [cache_state isReady memoryCache].
  - reflexivity.
  - apply JsMap_get_set_same. simpl. apply String.eqb_refl.
  - simpl. destruct (String.eqb_spec (trim s) "") as [Heq|]; [|reflexivity].
    rewrite Heq in Hurl. congruence.
Qed.

(** X21. With the in-memory cache connected, a read that returned a URL is
    answered with the same URL from then on, whatever the store holds and
    whatever the clock reads: the record may be gone or expired. *)
Theorem read_is_repeated_from_cache key u (w w' : world D MockCache) :
  isReady (cache_state w) = true -> sameValueZero key key = true ->
  getOriginalUrl key w = (Return u, w') -> truthy u = true ->
  forall d t,
    fst (getOriginalUrl key
           {| db_state := d; cache_state := cache_state w'; clock := t |})
    = Return u.
Proof.
  intros Hready Hkey Hread Hu d t.
  enough (Hc : isReady (cache_state w') = true
               /\ JsMap.get key (memoryCache (cache_state w')) = Some u)
    by (apply cached_read; cbn [cache_state]; tauto).
  assert (Hl : cache_lookup key w
               = (Return (js_or (match JsMap.get key (memoryCache (cache_state w)) with
                                 | Some v => v
                                 | None => VUndefined
                                 end) VNull), w)).
  { unfold cache_lookup, try_catch, bind, cache_ready, on_cache.
    cbn [cache_isReady cache_get MockCacheClient mock_get].
    rewrite Hready. destruct w; reflexivity. }
  unfold getOriginalUrl, bind at 1 in Hread. rewrite Hl in Hread.
  destruct (truthy (js_or _ VNull)) eqn:Hv.
  - (* served from the cache *)
    unfold bind, detach, ret in Hread. injection Hread as Hu' Hw'.
    assert (Hcs : cache_state w' = cache_state w).
    { rewrite <- Hw'. cbn [snd]. apply keeps_incrementClickCount. }
    rewrite Hcs. split; [exact Hready|].
    destruct (JsMap.get key (memoryCache (cache_state w))) as [v|].
    + unfold js_or in Hu', Hv. destruct (truthy v) eqn:Htv; [congruence|].
      simpl in Hv. discriminate.
    + simpl in Hv. discriminate.
  - (* read from the store, which warms the cache *)
    clear Hl Hv. unfold store_lookup in Hread.
    unfold bind at 1 in Hread.
    match type of Hread with context [query ?q ?ps w] =>
      pose proof (keeps_query q ps w) as Hk1;
      destruct (query q ps w) as [[res|e] w1]; cbn [snd] in Hk1;
      [|discriminate]
    end.
    unfold bind at 1, get_rows in Hread.
    destruct (rows res) as [[|r rs]|]; unfold ret at 1, throw in Hread.
    + injection Hread as <- _. discriminate.
    + unfold bind at 1, Date_now in Hread.
      destruct (isExpired (expires_at r) (clock w1)).
      * unfold bind, detach, ret in Hread. injection Hread as <- _.
        discriminate.
      * unfold bind at 1 in Hread.
        assert (Hr1 : isReady (cache_state w1) = true) by congruence.
        pose proof (warm_cache_mock key (original_url r) w1 Hr1) as Hwc.
        pose proof (warm_cache_safe key (original_url r) w1) as (Hw & _).
        destruct (warm_cache key (original_url r) w1) as [o w2].
        cbn [fst snd] in Hw, Hwc. subst o.
        unfold bind, detach, ret in Hread. injection Hread as <- <-.
        cbn [snd].
        rewrite (keeps_incrementClickCount key w2), Hwc.
        cbn [isReady memoryCache]. split; [reflexivity|].
        now apply JsMap_get_set_same.
    + discriminate.
Qed.
End CachedReads.

Lemma created_code_served_from_cache_witness :
  let r := {| shortCode := VStr "1";
              shortUrl := "http://localhost:3000/1";
              originalUrl := url_a;
              isNew := true |} in
  let w' := snd (createShortUrl (VStr url_a) VUndefined fresh_world) in
  isReady (cache_state fresh_world) = true
  /\ isURL "" = false
  /\ createShortUrl (VStr url_a) VUndefined fresh_world = (Return r, w')
  /\ isNew r = true
  /\ forall d t,
       fst (getOriginalUrl (shortCode r)
              {| db_state := d; cache_state := cache_state w'; clock := t |})
       = Return (VStr (originalUrl r)).
Proof.
  intros r w'.
  assert (H1 : isReady (cache_state fresh_world) = true) by reflexivity.
  assert (H2 : isURL "" = false) by reflexivity.
  assert (H3 : createShortUrl (VStr url_a) VUndefined fresh_world
               = (Return r, w')) by (vm_compute; reflexivity).
  assert (H4 : isNew r = true) by reflexivity.
  split; [exact H1|]. split; [exact H2|]. split; [exact H3|].
  split; [exact H4|].
  exact (@created_code_served_from_cache examplePlatform MockDb _ url_a
           VUndefined r fresh_world w' H1 H2 H3 H4).
Defined.

Lemma read_is_repeated_from_cache_witness :
  let w := store_of [entry 2 url_a VNull "2"] 3 in
  let w' := snd (getOriginalUrl (VStr "2") w) in
  isReady (cache_state w) = true
  /\ sameValueZero (VStr "2") (VStr "2") = true
  /\ getOriginalUrl (VStr "2") w = (Return (VStr url_a), w')
  /\ truthy (VStr url_a) = true
  /\ forall d t,
       fst (getOriginalUrl (VStr "2")
              {| db_state := d; cache_state := cache_state w'; clock := t |})
       = Return (VStr url_a).
Proof.
  intros w w'.
  assert (H1 : isReady (cache_state w) = true) by reflexivity.
  assert (H2 : sameValueZero (VStr "2") (VStr "2") = true) by reflexivity.
  assert (H3 : getOriginalUrl (VStr "2") w = (Return (VStr url_a), w'))
    by (vm_compute; reflexivity).
  assert (H4 : truthy (VStr url_a) = true) by reflexivity.
  split; [exact H1|]. split; [exact H2|]. split; [exact H3|].
  split; [exact H4|].
  exact (@read_is_repeated_from_cache examplePlatform MockDb _ (VStr "2")
           (VStr url_a) w w' H1 H2 H3 H4).
Defined.

(** * Statistics and preloading *)

Section StatsAndPreload.
Context {P : Platform} {C : Type} {cache : CacheClient C}.

Lemma mock_select_stats code now_ st :
  mock_query SQLMore.select_stats [code] now_ st
  = match find (has_code code) (JsMap.values (urls st)) with
    | Some entry =>
        (Return {| rows := Some [entry]; rowCount := VInt 1 |}, st)
    | None => (Return {| rows := Some []; rowCount := VInt 0 |}, st)
    end.
Proof. unfold mock_query. eval_includes. reflexivity. Qed.

(** None of the patterns of the in-memory store occurs in the statement that
    selects the popular URLs. *)
Lemma mock_select_popular params now_ st :
  mock_query SQLMore.select_popular params now_ st
  = (Return {| rows := Some []; rowCount := VInt 0 |}, st).
Proof. unfold mock_query. eval_includes. reflexivity. Qed.

(** X22. Over the in-memory store the statistics route answers a well-formed
    code with the first record that carries it, expired or not, and with
    404 when no record does; it changes nothing. *)
Theorem get_stats_mock code (w : world MockDb C) :
  matches_base62 code = true ->
  (forall r,
      first_record (has_code (VStr code)) (urls (db_state w)) r ->
      get_stats code w = (StatsJson 200 r, w))
  /\ (no_record (has_code (VStr code)) (urls (db_state w)) ->
      get_stats code w = (StatsError 404 "URL not found", w)).
Proof.
  intros Hm.
  assert (Hg : get_stats code w
               = match find (has_code (VStr code))
                         (JsMap.values (urls (db_state w))) with
                 | Some r => (StatsJson 200 r, w)
                 | None => (StatsError 404 "URL not found", w)
                 end).
  { unfold get_stats, get_stats_body. rewrite Hm. cbn [negb].
    unfold bind at 1, getUrlStats, bind at 1, query.
    cbn [db_query MockDatabase]. rewrite mock_select_stats.
    destruct w as [d c t]. cbn [db_state cache_state clock].
    destruct (find _ _); reflexivity. }
  rewrite Hg. split.
  - intros r Hfirst. now rewrite (find_first_record Hfirst).
  - intros Hnone. now rewrite (find_no_record Hnone).
Qed.

(** X23. Over the in-memory store [preloadCache] loads nothing: its statement
    matches none of the store's patterns, so whatever the store holds and
    whatever the limit, it returns 0 and leaves cache and store alone. *)
Theorem preloadCache_mock_loads_nothing limit (w : world MockDb C) :
  preloadCache limit w = (Return 0, w).
Proof.
  unfold preloadCache, bind, query. cbn [db_query MockDatabase].
  rewrite mock_select_popular. destruct w; reflexivity.
Qed.
End StatsAndPreload.

Lemma get_stats_mock_witness :
  let w := store_of [entry 1 url_a (VDate (Some 500)) "1"] 2 in
  matches_base62 "1" = true
  /\ isExpired (VDate (Some 500)) (clock w) = true
  /\ first_record (has_code (VStr "1")) (urls (db_state w))
       (snd (entry 1 url_a (VDate (Some 500)) "1"))
  /\ get_stats "1" w
     = (StatsJson 200 (snd (entry 1 url_a (VDate (Some 500)) "1")), w).
Proof.
  intros w.
  assert (H1 : matches_base62 "1" = true) by reflexivity.
  assert (H2 : first_record (has_code (VStr "1")) (urls (db_state w))
                 (snd (entry 1 url_a (VDate (Some 500)) "1"))).
  { exists [], (VInt 1), []. split; [reflexivity|]. split; [reflexivity|].
    constructor. }
  split; [exact H1|]. split; [reflexivity|]. split; [exact H2|].
  exact (proj1 (@get_stats_mock examplePlatform MockCache "1" w H1) _ H2).
Defined.

Section Preload.
Context {P : Platform} {D C : Type} {db : Database D} {cache : CacheClient C}.

Lemma preload_rows_counts rs loaded (w : world D C) :
  exists n w',
    preload_rows rs loaded w = (Return n, w')
    /\ loaded <= n <= loaded + Z.of_nat (length rs)
    /\ db_state w' = db_state w /\ clock w' = clock w.
Proof.
  revert loaded w. induction rs as [|r rs IH]; intros loaded w.
  - exists loaded, w. simpl. unfold ret. repeat split; lia.
  - cbn [preload_rows]. unfold bind at 1, try_catch, bind at 1, on_cache.
    destruct (cache_set (short_code r) (original_url r) config.redis_ttl
                (cache_state w)) as [[a|e] c1]; unfold ret at 1.
    + destruct (IH (loaded + 1)
                  {| db_state := db_state w; cache_state := c1;
                     clock := clock w |}) as (n & w' & -> & Hn & Hd & Hc).
      exists n, w'. cbn [length]. simpl in Hd, Hc.
      repeat split; try assumption; lia.
    + destruct (IH loaded
                  {| db_state := db_state w; cache_state := c1;
                     clock := clock w |}) as (n & w' & -> & Hn & Hd & Hc).
      exists n, w'. cbn [length]. simpl in Hd, Hc.
      repeat split; try assumption; lia.
Qed.

(** X24. [preloadCache] returns a count between 0 and the number of rows its
    statement returned, whatever the cache does: a [cache.set] that fails is
    skipped, not raised; the store is as the statement left it. *)
Theorem preloadCache_counts limit res rs d' (w : world D C) :
  db_query SQLMore.select_popular [limit] (clock w) (db_state w)
  = (Return res, d') ->
  rows res = Some rs ->
  exists n w',
    preloadCache limit w = (Return n, w')
    /\ 0 <= n <= Z.of_nat (length rs)
    /\ db_state w' = d' /\ clock w' = clock w.
Proof.
  intros Hq Hrows. unfold preloadCache, bind, query. rewrite Hq, Hrows.
  destruct (preload_rows_counts rs 0
              {| db_state := d'; cache_state := cache_state w;
                 clock := clock w |}) as (n & w' & -> & Hn & Hd & Hc).
  exists n, w'. simpl in Hd, Hc. repeat split; try assumption; lia.
Qed.
End Preload.

Section PreloadMockCache.
Context {P : Platform} {D : Type} {db : Database D}.

Lemma preload_rows_mock rs loaded (w : world D MockCache) :
  exists w',
    preload_rows rs loaded w = (Return (loaded + Z.of_nat (length rs)), w')
    /\ isReady (cache_state w') = isReady (cache_state w)
    /\ (forall k, JsMap.has k (memoryCache (cache_state w)) = true ->
                  JsMap.has k (memoryCache (cache_state w')) = true)
    /\ (forall r, In r rs ->
                  sameValueZero (short_code r) (short_code r) = true ->
                  JsMap.has (short_code r) (memoryCache (cache_state w'))
                  = true).
Proof.
  revert loaded w. induction rs as [|r rs IH]; intros loaded w.
  - exists w. simpl. unfold ret. rewrite Z.add_0_r.
    split; [reflexivity|]. split; [reflexivity|]. split; [auto|].
    intros r [].
  - cbn [preload_rows]. unfold bind at 1, try_catch, bind at 1, on_cache.
    cbn [cache_set MockCacheClient mock_set]. unfold ret at 1.
    match goal with |- context [preload_rows rs (loaded + 1) ?w1] =>
      destruct (IH (loaded + 1) w1) as (w' & -> & Hr & Hmono & Hin)
    end.
    cbn [cache_state isReady memoryCache] in Hr, Hmono.
    exists w'. split; [f_equal; f_equal; cbn [length]; lia|].
    split; [exact Hr|]. split.
    + intros k Hk. apply Hmono. now apply JsMap_has_set.
    + intros r0 [<-|Hr0] Hkey; [|now apply Hin].
      apply Hmono. unfold JsMap.has. now rewrite JsMap_get_set_same.
Qed.

(** X25. With the in-memory cache, [preloadCache] loads every row its
    statement returned and says so, connected or not: it does not look at
    [isReady]; afterwards the cache holds an entry under the code of
    each row. *)
Theorem preloadCache_mock_cache limit res rs d' (w : world D MockCache) :
  db_query SQLMore.select_popular [limit] (clock w) (db_state w)
  = (Return res, d') ->
  rows res = Some rs ->
  exists w',
    preloadCache limit w = (Return (Z.of_nat (length rs)), w')
    /\ isReady (cache_state w') = isReady (cache_state w)
    /\ forall r, In r rs ->
                 sameValueZero (short_code r) (short_code r) = true ->
                 JsMap.has (short_code r) (memoryCache (cache_state w'))
                 = true.
Proof.
  intros Hq Hrows. unfold preloadCache, bind, query. rewrite Hq, Hrows.
  destruct (preload_rows_mock rs 0
              {| db_state := d'; cache_state := cache_state w;
                 clock := clock w |}) as (w' & -> & Hr & _ & Hin).
  exists w'. cbn [cache_state] in Hr. auto.
Qed.
End PreloadMockCache.

Lemma preloadCache_counts_witness :
  let res := {| rows := Some [code_row "1" url_a; code_row "2" url_a];
                rowCount := VInt 2 |} in
  let w : world unit unit :=
    {| db_state := tt; cache_state := tt; clock := 1000 |} in
  db_query (Database := FixedDatabase res) SQLMore.select_popular [VInt 1000]
    (clock w) (db_state w) = (Return res, tt)
  /\ rows res = Some [code_row "1" url_a; code_row "2" url_a]
  /\ exists n w',
       preloadCache (db := FixedDatabase res) (cache := FailingCache)
         (VInt 1000) w = (Return n, w')
       /\ 0 <= n <= Z.of_nat (length [code_row "1" url_a; code_row "2" url_a])
       /\ db_state w' = tt /\ clock w' = clock w.
Proof.
  intros res w.
  assert (H1 : db_query (Database := FixedDatabase res)
                 SQLMore.select_popular [VInt 1000] (clock w) (db_state w)
               = (Return res, tt)) by reflexivity.
  assert (H2 : rows res = Some [code_row "1" url_a; code_row "2" url_a])
    by reflexivity.
  split; [exact H1|]. split; [exact H2|].
  exact (preloadCache_counts (db := FixedDatabase res) (cache := FailingCache)
           (VInt 1000) w H1 H2).
Defined.

Lemma preloadCache_mock_cache_witness :
  let res := {| rows := Some [code_row "1" url_a; code_row "2" url_a];
                rowCount := VInt 2 |} in
  let w : world unit MockCache :=
    {| db_state := tt;
       cache_state := {| isReady := false; memoryCache := [] |};
       clock := 1000 |} in
  db_query (Database := FixedDatabase res) SQLMore.select_popular [VInt 1000]
    (clock w) (db_state w) = (Return res, tt)
  /\ rows res = Some [code_row "1" url_a; code_row "2" url_a]
  /\ exists w',
       preloadCache (db := FixedDatabase res) (VInt 1000) w
       = (Return (Z.of_nat (length [code_row "1" url_a; code_row "2" url_a])),
          w')
       /\ isReady (cache_state w') = isReady (cache_state w)
       /\ forall r,
            In r [code_row "1" url_a; code_row "2" url_a] ->
            sameValueZero (short_code r) (short_code r) = true ->
            JsMap.has (short_code r) (memoryCache (cache_state w')) = true.
Proof.
  intros res w.
  assert (H1 : db_query (Database := FixedDatabase res)
                 SQLMore.select_popular [VInt 1000] (clock w) (db_state w)
               = (Return res, tt)) by reflexivity.
  assert (H2 : rows res = Some [code_row "1" url_a; code_row "2" url_a])
    by reflexivity.
  split; [exact H1|]. split; [exact H2|].
  exact (preloadCache_mock_cache (db := FixedDatabase res)
           (VInt 1000) w H1 H2).
Defined.

(** * More of the write path *)

Section Trimming.

Lemma trimEnd_idempotent s : trimEnd (trimEnd s) = trimEnd s.
Proof.
  induction s as [|c s IH]; [reflexivity|]. cbn [trimEnd].
  destruct (isWhiteSpace c && String.eqb (trimEnd s) "") eqn:Hc;
    [reflexivity|].
  cbn [trimEnd]. now rewrite IH, Hc.
Qed.

Lemma trimStart_head s :
  trimStart s = ""
  \/ exists c t, trimStart s = String c t /\ isWhiteSpace c = false.
Proof.
  induction s as [|c s IH]; [left; reflexivity|]. cbn [trimStart].
  destruct (isWhiteSpace c) eqn:Hc; [exact IH | right; eauto].
Qed.

Lemma trim_idempotent s : trim (trim s) = trim s.
Proof.
  unfold trim.
  assert (Hs : trimStart (trimEnd (trimStart s)) = trimEnd (trimStart s)).
  { destruct (trimStart_head s) as [-> | (c & t & -> & Hc)]; [reflexivity|].
    cbn [trimEnd]. rewrite Hc. cbn [andb trimStart]. now rewrite Hc. }
  rewrite Hs. apply trimEnd_idempotent.
Qed.
End Trimming.

Section WritePathMore.
Context {P : Platform} {D C : Type} {db : Database D} {cache : CacheClient C}.

(** X26. White space around the URL does not count: a request is served as
    the request for the trimmed URL is, in outcome and in effect, provided
    something is left of the URL once it is trimmed. *)
Theorem createShortUrl_ignores_padding s exp (w : world D C) :
  trim s <> "" ->
  createShortUrl (VStr s) exp w = createShortUrl (VStr (trim s)) exp w.
Proof.
  intros Hne.
  assert (Hs : truthy (VStr s) = true).
  { simpl. destruct (String.eqb_spec s "") as [->|]; [|reflexivity].
    now destruct Hne. }
  assert (Ht : truthy (VStr (trim s)) = true).
  { simpl. destruct (String.eqb_spec (trim s) ""); [contradiction|reflexivity]. }
  unfold createShortUrl. rewrite Hs, Ht. cbn [typeof negb orb].
  change (("string" =? "string")%string) with true. cbn [negb].
  now rewrite trim_idempotent.
Qed.

(** X27. A request that carries an expiry is never answered with an existing
    code: the duplicate check is skipped, and if the request succeeds its
    code is new. *)
Theorem createShortUrl_with_expiry_is_new url exp r (w w' : world D C) :
  truthy exp = true ->
  createShortUrl url exp w = (Return r, w') ->
  isNew r = true.
Proof.
  intros Hexp Hc. unfold createShortUrl in Hc.
  destruct (negb (truthy url) || _); [discriminate|].
  set (u := trim _) in Hc.
  destruct (isURL u); cbn [negb] in Hc; [|discriminate].
  destruct (config.app_maxUrlLength <? strlen u); [discriminate|].
  unfold bind at 1, find_duplicate in Hc. rewrite Hexp in Hc.
  cbn [negb] in Hc. unfold ret at 1 in Hc.
  unfold bind at 1 in Hc.
  destruct (query _ _ w) as [[res|e] w2]; [|discriminate].
  unfold bind at 1 in Hc.
  destruct (first_row_id res w2) as [[id_|e] w3]; [|discriminate].
  unfold bind at 1, lift in Hc.
  destruct (Base62.idToBase62 id_) as [code|e]; [|discriminate].
  unfold bind at 1 in Hc.
  destruct (query _ _ w3) as [[res'|e] w4]; [|discriminate].
  unfold bind at 1 in Hc.
  destruct (warm_cache (VStr code) (VStr u) w4) as [[[]|e] w5]; [|discriminate].
  unfold ret in Hc. injection Hc as <- _. reflexivity.
Qed.
End WritePathMore.

Lemma createShortUrl_ignores_padding_witness :
  trim padded_url <> ""
  /\ createShortUrl (VStr padded_url) VUndefined fresh_world
     = createShortUrl (VStr (trim padded_url)) VUndefined fresh_world.
Proof.
  assert (H : trim padded_url <> "") by (vm_compute; discriminate).
  split; [exact H|].
  exact (@createShortUrl_ignores_padding examplePlatform _ _ _ _ padded_url
           VUndefined fresh_world H).
Defined.

Lemma createShortUrl_with_expiry_is_new_witness :
  let w := store_of [entry 1 url_a VNull "1"] 2 in
  let r := {| shortCode := VStr "2";
              shortUrl := "http://localhost:3000/2";
              originalUrl := url_a;
              isNew := true |} in
  let w' := snd (createShortUrl (VStr url_a) (VDate (Some 2000)) w) in
  truthy (VDate (Some 2000)) = true
  /\ createShortUrl (VStr url_a) (VDate (Some 2000)) w = (Return r, w')
  /\ isNew r = true.
Proof.
  intros w r w'.
  assert (H1 : truthy (VDate (Some 2000)) = true) by reflexivity.
  assert (H2 : createShortUrl (VStr url_a) (VDate (Some 2000)) w
               = (Return r, w')) by (vm_compute; reflexivity).
  split; [exact H1|]. split; [exact H2|].
  exact (@createShortUrl_with_expiry_is_new examplePlatform _ _ _ _
           (VStr url_a) (VDate (Some 2000)) r w w' H1 H2).
Defined.
